(** * phaser-unpacker: a shallow embedding of [main.go] and its properties

    The development follows the program bottom-up:

    - Go's [int] arithmetic and the parts of the standard packages [image],
      [image/draw] and [image/png] that [unpackTexture] calls;
    - the manifest model ([Size], [Frame], [Texture], [Sheet], [Pack],
      [Unpacker]);
    - [unpackTexture]: the canvas construction and the file operations;
    - [unpackSheet]: the worker pool, as a scheduler-driven transition system;
    - [unpack]: the per-sheet goroutines and the first-error slot. *)

From stdpp Require Import gmap strings list.
From Stdlib Require Import ZArith Lia Bool PrimFloat Ascii.
From Stdlib Require String.

Local Open Scope Z_scope.

(** ** Go's [int] (64 bits, two's complement) *)

Definition wrap (z : Z) : Z := (z + 9223372036854775808) mod 18446744073709551616 - 9223372036854775808.

Definition int_range (z : Z) : Prop := -9223372036854775808 <= z < 9223372036854775808.

Definition iadd (a b : Z) : Z := wrap (a + b).
Definition isub (a b : Z) : Z := wrap (a - b).
Definition imul (a b : Z) : Z := wrap (a * b).

Infix "+'" := iadd (at level 50, left associativity).
Infix "-'" := isub (at level 50, left associativity).
Infix "*'" := imul (at level 40, left associativity).

(** ** Package [image/color]: the 8-bit alpha-premultiplied colour *)

Module color.
Record RGBA := { R : Z; G : Z; B : Z; A : Z }.

(** The zero value [color.RGBA{}]: fully transparent. *)
Definition zero : RGBA := {| R := 0; G := 0; B := 0; A := 0 |}.
End color.

(** ** Package [image]: points, rectangles, images *)

Module image.
Record Point := { X : Z; Y : Z }.
Record Rectangle := { Min : Point; Max : Point }.

Definition ZR : Rectangle :=
  {| Min := {| X := 0; Y := 0 |}; Max := {| X := 0; Y := 0 |} |}.

Definition Point_Sub (p q : Point) : Point :=
  {| X := X p -' X q; Y := Y p -' Y q |}.

Definition Point_In (p : Point) (r : Rectangle) : bool :=
  (X (Min r) <=? X p) && (X p <? X (Max r)) &&
  (Y (Min r) <=? Y p) && (Y p <? Y (Max r)).

Definition Rectangle_Dx (r : Rectangle) : Z := X (Max r) -' X (Min r).
Definition Rectangle_Dy (r : Rectangle) : Z := Y (Max r) -' Y (Min r).

Definition Rectangle_Empty (r : Rectangle) : bool :=
  (X (Max r) <=? X (Min r)) || (Y (Max r) <=? Y (Min r)).

Definition Rectangle_Add (r : Rectangle) (p : Point) : Rectangle :=
  {| Min := {| X := X (Min r) +' X p; Y := Y (Min r) +' Y p |};
     Max := {| X := X (Max r) +' X p; Y := Y (Max r) +' Y p |} |}.

Definition Rectangle_Intersect (r s : Rectangle) : Rectangle :=
  let minx := if X (Min r) <? X (Min s) then X (Min s) else X (Min r) in
  let miny := if Y (Min r) <? Y (Min s) then Y (Min s) else Y (Min r) in
  let maxx := if X (Max s) <? X (Max r) then X (Max s) else X (Max r) in
  let maxy := if Y (Max s) <? Y (Max r) then Y (Max s) else Y (Max r) in
  let r' := {| Min := {| X := minx; Y := miny |};
               Max := {| X := maxx; Y := maxy |} |} in
  if Rectangle_Empty r' then ZR else r'.

(** The interface [image.Image]: a bounding rectangle and a colour at
    each point.  [At] is read through [color.RGBAModel], which is how
    [draw.Draw] consumes a source whose destination is an [*image.RGBA]. *)
Record Image := { Bounds : Rectangle; At : Z -> Z -> color.RGBA }.

(** [*image.RGBA].  One entry of [Pix] stands for the four bytes R, G, B, A
    of a pixel, and [Stride] counts pixels, not bytes. *)
Record RGBA := { Pix : list color.RGBA; Stride : Z; Rect : Rectangle }.

Definition mul3NonNeg (x y z : Z) : Z :=
  if (x <? 0) || (y <? 0) || (z <? 0) then -1
  else
    let lo := x * y in
    if 18446744073709551616 <=? lo then -1
    else
      let lo2 := lo * z in
      if 18446744073709551616 <=? lo2 then -1
      else if 9223372036854775808 <=? lo2 then -1
      else lo2.

(** [None] stands for the panic "Rectangle has huge or negative
    dimensions". *)
Definition pixelBufferLength (bytesPerPixel : Z) (r : Rectangle) : option Z :=
  let totalLength := mul3NonNeg bytesPerPixel (Rectangle_Dx r) (Rectangle_Dy r) in
  if totalLength <? 0 then None else Some totalLength.

Definition NewRGBA (r : Rectangle) : option RGBA :=
  match pixelBufferLength 4 r with
  | None => None
  | Some n =>
      Some {| Pix := replicate (Z.to_nat (n / 4)) color.zero;
              Stride := Rectangle_Dx r;
              Rect := r |}
  end.

Definition PixOffset (p : RGBA) (x y : Z) : Z :=
  (y -' Y (Min (Rect p))) *' Stride p +' (x -' X (Min (Rect p))).

Definition RGBAAt (p : RGBA) (x y : Z) : color.RGBA :=
  if negb (Point_In {| X := x; Y := y |} (Rect p)) then color.zero
  else default color.zero (Pix p !! Z.to_nat (PixOffset p x y)).

Definition Set_ (p : RGBA) (x y : Z) (c : color.RGBA) : RGBA :=
  if negb (Point_In {| X := x; Y := y |} (Rect p)) then p
  else {| Pix := <[Z.to_nat (PixOffset p x y) := c]> (Pix p);
          Stride := Stride p;
          Rect := Rect p |}.
End image.

(** ** Package [image/draw], for [op = draw.Src] and no mask *)

Module draw.
Import image.

Definition clip (dst : RGBA) (r : Rectangle) (src : Image) (sp : Point)
  : Rectangle * Point :=
  let orig := Min r in
  let r := Rectangle_Intersect r (Rect dst) in
  let r := Rectangle_Intersect r (Rectangle_Add (Bounds src) (Point_Sub orig sp)) in
  let dx := X (Min r) -' X orig in
  let dy := Y (Min r) -' Y orig in
  if (dx =? 0) && (dy =? 0) then (r, sp)
  else (r, {| X := X sp +' dx; Y := Y sp +' dy |}).

(** Inner loop [for x := x0; x != x1; x, sx = x+1, sx+1]. *)
Fixpoint drawRow (n : nat) (src : Image) (y sy x sx : Z) (dst : RGBA) : RGBA :=
  match n with
  | O => dst
  | S n' => drawRow n' src y sy (x +' 1) (sx +' 1) (Set_ dst x y (At src sx sy))
  end.

(** Outer loop [for y := y0; y != y1; y, sy = y+1, sy+1]. *)
Fixpoint drawRows (m n : nat) (src : Image) (x0 sx0 y sy : Z) (dst : RGBA) : RGBA :=
  match m with
  | O => dst
  | S m' => drawRows m' n src x0 sx0 (y +' 1) (sy +' 1) (drawRow n src y sy x0 sx0 dst)
  end.

(** [draw.Draw(dst, r, src, sp, draw.Src)].  A nil [src] panics at
    [src.Bounds()]: [None]. *)
Definition Draw (dst : RGBA) (r : Rectangle) (src : option Image) (sp : Point)
  : option RGBA :=
  match src with
  | None => None
  | Some src =>
      let '(r, sp) := clip dst r src sp in
      if Rectangle_Empty r then Some dst
      else
        let x0 := X (Min r) in
        let y0 := Y (Min r) in
        Some (drawRows (Z.to_nat (Y (Max r) - y0)) (Z.to_nat (X (Max r) - x0)) src
                x0 (X sp +' x0 -' X (Min r)) y0 (Y sp +' y0 -' Y (Min r)) dst)
  end.
End draw.

(** ** The manifest model of [main.go] *)

Module Size.
Record t := { Width : Z; Height : Z }.

Definition Min (sz : t) : image.Point := {| image.X := 0; image.Y := 0 |}.
Definition Max (sz : t) : image.Point := {| image.X := Width sz; image.Y := Height sz |}.
Definition Rect (sz : t) : image.Rectangle := {| image.Min := Min sz; image.Max := Max sz |}.
End Size.

Module Frame.
Record t := { Width : Z; Height : Z; X : Z; Y : Z }.

Definition Min (fr : t) : image.Point := {| image.X := X fr; image.Y := Y fr |}.
Definition Max (fr : t) : image.Point :=
  {| image.X := X fr +' Width fr; image.Y := Y fr +' Height fr |}.
Definition Rect (fr : t) : image.Rectangle := {| image.Min := Min fr; image.Max := Max fr |}.
End Frame.

Record Texture := {
  FileName : string;
  Frame : Frame.t;
  Rotated : bool;
  SourceSize : Size.t;
  SpriteSourceSize : Frame.t;
  Trimmed : bool
}.

(** Lines 93-99 of [unpackTexture]: the canvas that is later encoded.
    [None] is a panic ([image.NewRGBA] on a negative or huge size, or a nil
    source image). *)
Definition unpackTexture_sprite (texture : Texture) (img : option image.Image)
  : option image.RGBA :=
  let spriteSize := Size.Rect (SourceSize texture) in
  match image.NewRGBA spriteSize with
  | None => None
  | Some sprite =>
      let destFrame := Frame.Rect (SpriteSourceSize texture) in
      let sourceFrame := Frame.Rect (Frame texture) in
      draw.Draw sprite destFrame img (image.Min sourceFrame)
  end.


(** ** Errors and the operating system *)

(** Go [error] values: those handed back by the environment, the one
    [png.Encoder.Encode] makes itself, and the wrappers of [fmt.Errorf]
    with a [%w] verb. *)
Inductive error :=
| EnvError (msg : string)
| png_FormatError (mw mh : Z)
| Errorf (format : string) (err : error).

(** What the operating system and the libraries answer.  The answers are
    fixed for the length of a run: the input files do not change under the
    program, and whether a path can be created does not depend on the order
    of the calls.  [None] is a nil error. *)
Record Env := {
  filepath_Join : list string -> string;
  os_MkdirAll : string -> option error;
  os_Create : string -> option error;
  File_Write : string -> option error;
  File_Close : string -> option error;
  os_Open : string -> option error;
  image_Decode : string -> error + image.Image
}.

(** The part of the file system the program writes: the directories made
    by [os.MkdirAll] and the files made by [os.Create], each with the image
    that was encoded into it ([None]: created, nothing encoded). *)
Record World := {
  dirs : gset string;
  files : gmap string (option image.RGBA)
}.

Definition mkdir (p : string) (w : World) : World :=
  {| dirs := {[p]} ∪ dirs w; files := files w |}.

Definition write_file (p : string) (c : option image.RGBA) (w : World) : World :=
  {| dirs := dirs w; files := <[p := c]> (files w) |}.

(** [strings.Contains]. *)
Fixpoint strings_Contains (s substr : string) : bool :=
  if String.prefix substr s then true
  else match s with
       | EmptyString => false
       | String _ s' => strings_Contains s' substr
       end.

(** [strings.Split] for a separator of one character. *)
Fixpoint strings_Split (s : string) (sep : Ascii.ascii) : list string :=
  match s with
  | EmptyString => [EmptyString]
  | String c s' =>
      if Ascii.eqb c sep then EmptyString :: strings_Split s' sep
      else match strings_Split s' sep with
           | [] => [String c EmptyString]
           | p :: ps => String c p :: ps
           end
  end.

(** [png.Encoder.Encode]: the size check, then the write. *)
Definition png_Encode (env : Env) (path : string) (m : image.RGBA) : option error :=
  let mw := image.Rectangle_Dx (image.Rect m) in
  let mh := image.Rectangle_Dy (image.Rect m) in
  if (mw <=? 0) || (mh <=? 0) || (4294967296 <=? mw) || (4294967296 <=? mh)
  then Some (png_FormatError mw mh)
  else File_Write env path.

(** ** Sheets, packs and the unpacker *)

Record Sheet := {
  Format : string;
  Textures : list Texture;
  Image : string;
  Scale : float;
  Size : Size.t
}.

Record Pack := {
  Meta : gmap string string;
  Sheets : list Sheet
}.

Record Unpacker := {
  Pack_ : Pack;
  PackName : string;
  InputDir : string;
  OutputDir : string;
  Workers : Z
}.

(** ** [unpackTexture] *)

(** How a call ends: a panic (which ends the process), or a returned
    [error], [None] being nil. *)
Inductive outcome :=
| Panic
| Return (err : option error).

Definition outputPath (env : Env) (unpacker : Unpacker) (texture : Texture) : string :=
  filepath_Join env [OutputDir unpacker; String.append (FileName texture) ".png"].

Definition subDir (env : Env) (unpacker : Unpacker) (texture : Texture) : string :=
  let parts := strings_Split (FileName texture) "/"%char in
  filepath_Join env [OutputDir unpacker; filepath_Join env parts].

Definition unpackTexture (env : Env) (unpacker : Unpacker)
    (texture : Texture) (img : option image.Image) (w : World) : World * outcome :=
  match unpackTexture_sprite texture img with
  | None => (w, Panic)
  | Some sprite =>
      let made :=
        if strings_Contains (FileName texture) "/"
        then match os_MkdirAll env (subDir env unpacker texture) with
             | Some err => inl (Errorf "failed to create output directory" err)
             | None => inr (mkdir (subDir env unpacker texture) w)
             end
        else inr w in
      match made with
      | inl err => (w, Return (Some err))
      | inr w1 =>
          match os_Create env (outputPath env unpacker texture) with
          | Some err => (w1, Return (Some (Errorf "failed to open output file" err)))
          | None =>
              let w2 := write_file (outputPath env unpacker texture) None w1 in
              match png_Encode env (outputPath env unpacker texture) sprite with
              | Some err => (w2, Return (Some (Errorf "failed to encode sprite as png" err)))
              | None =>
                  let w3 := write_file (outputPath env unpacker texture) (Some sprite) w2 in
                  match File_Close env (outputPath env unpacker texture) with
                  | Some err => (w3, Return (Some (Errorf "failed to write output file" err)))
                  | None => (w3, Return None)
                  end
              end
          end
      end
  end.

(** ** [unpackSheet]: one sheet's pipeline

    The goroutines of a sheet (the feeder, the workers, the caller waiting
    on the [WaitGroup]) are modelled as a transition system driven by a
    scheduler: a schedule is a list of choices, each naming the goroutine
    that moves next.  The unbuffered channel [jobs] is the list of textures
    the feeder has yet to hand over, a hand-over being a move of the
    receiving worker; the channel counts as closed once the list is empty.
    [results] is the buffered channel, oldest first.  One call of
    [unpackTexture] is one move.  The increments of the progress bars, a
    display only, are left out. *)

(** The history of a pipeline: what it asked of the environment, in order.
    It is never read by the program. *)
Inductive Event :=
| EvOpen (path : string)
| EvDecode (path : string)
| EvUnpack (tex : Texture) (img : image.Image) (res : outcome).

Inductive WorkerState :=
| Ready
| Busy (tex : Texture)
| Exited.

Inductive SheetState :=
| SInit
| SPool (img : image.Image) (jobs : list Texture) (workers : list WorkerState)
    (results : list (option error))
| SDone (ret : option error)
| SPanic.

Record SheetRun := { st : SheetState; hist : list Event }.

Definition run0 : SheetRun := {| st := SInit; hist := [] |}.

Inductive SheetChoice :=
| CStart
| CWorker (k : nat)
| CWait.

(** The loop [for err := range results] that ends [unpackSheet]. *)
Fixpoint first_error (results : list (option error)) : option error :=
  match results with
  | [] => None
  | Some err :: _ => Some err
  | None :: results' => first_error results'
  end.

Definition is_Exited (ws : WorkerState) : bool :=
  match ws with Exited => true | _ => false end.

Definition sheetPath (env : Env) (unpacker : Unpacker) (sheet : Sheet) : string :=
  filepath_Join env [InputDir unpacker; Image sheet].

Definition unpackSheet_step (env : Env) (unpacker : Unpacker) (sheet : Sheet)
    (c : SheetChoice) (wr : World * SheetRun) : option (World * SheetRun) :=
  let '(w, r) := wr in
  match c, st r with
  | CStart, SInit =>
      let p := sheetPath env unpacker sheet in
      match os_Open env p with
      | Some err =>
          Some (w, {| st := SDone (Some (Errorf "failed to open texture sheet" err));
                      hist := hist r ++ [EvOpen p] |})
      | None =>
          match image_Decode env p with
          | inl err =>
              Some (w, {| st := SDone (Some (Errorf "failed to decode webp file" err));
                          hist := hist r ++ [EvOpen p; EvDecode p] |})
          | inr img =>
              Some (w, {| st := SPool img (Textures sheet)
                                  (replicate (Z.to_nat (Workers unpacker)) Ready) [];
                          hist := hist r ++ [EvOpen p; EvDecode p] |})
          end
      end
  | CWorker k, SPool img jobs workers results =>
      match workers !! k with
      | Some Ready =>
          match jobs with
          | tex :: jobs' =>
              Some (w, {| st := SPool img jobs' (<[k := Busy tex]> workers) results;
                          hist := hist r |})
          | [] =>
              Some (w, {| st := SPool img [] (<[k := Exited]> workers) results;
                          hist := hist r |})
          end
      | Some (Busy tex) =>
          let w' := fst (unpackTexture env unpacker tex (Some img) w) in
          let o := snd (unpackTexture env unpacker tex (Some img) w) in
          let h := hist r ++ [EvUnpack tex img o] in
          match o with
          | Panic => Some (w', {| st := SPanic; hist := h |})
          | Return (Some err) =>
              Some (w', {| st := SPool img jobs (<[k := Exited]> workers)
                                   (results ++ [Some err]);
                           hist := h |})
          | Return None =>
              Some (w', {| st := SPool img jobs (<[k := Ready]> workers)
                                   (results ++ [None]);
                           hist := h |})
          end
      | _ => None
      end
  | CWait, SPool img jobs workers results =>
      if forallb is_Exited workers
      then Some (w, {| st := SDone (first_error results); hist := hist r |})
      else None
  | _, _ => None
  end.

(** Running a schedule: every choice must be enabled when its turn comes. *)
Fixpoint exec {S C : Type} (step : C -> S -> option S) (cs : list C) (s : S) : option S :=
  match cs with
  | [] => Some s
  | c :: cs' =>
      match step c s with
      | Some s' => exec step cs' s'
      | None => None
      end
  end.

(** ** [unpack]: one goroutine per sheet *)

(** [joined] is set once the goroutine has gone through the section under
    the mutex and [wg.Done]. *)
Record Goroutine := { sheet_of : Sheet; run : SheetRun; joined : bool }.

(** [captured] lists the errors in the order in which their goroutines took
    the mutex; like [hist] it is never read by the program. *)
Record PackState := {
  world : World;
  goroutines : list Goroutine;
  captured : list error;
  firstErr : option error;
  returned : option (option error)
}.

Inductive PackChoice :=
| PSheet (i : nat) (c : SheetChoice)
| PJoin (i : nat)
| PReturn.

Definition panicked (g : Goroutine) : bool :=
  match st (run g) with SPanic => true | _ => false end.

Definition unpack_step (env : Env) (unpacker : Unpacker) (c : PackChoice) (s : PackState)
  : option PackState :=
  match returned s with
  | Some _ => None
  | None =>
      if existsb panicked (goroutines s) then None
      else
        match c with
        | PSheet i c' =>
            match goroutines s !! i with
            | Some g =>
                match unpackSheet_step env unpacker (sheet_of g) c' (world s, run g) with
                | Some (w', r') =>
                    Some {| world := w';
                            goroutines :=
                              <[i := {| sheet_of := sheet_of g; run := r'; joined := joined g |}]>
                                (goroutines s);
                            captured := captured s;
                            firstErr := firstErr s;
                            returned := None |}
                | None => None
                end
            | None => None
            end
        | PJoin i =>
            match goroutines s !! i with
            | Some g =>
                if joined g then None
                else
                  match st (run g) with
                  | SDone ret =>
                      let gs := <[i := {| sheet_of := sheet_of g; run := run g; joined := true |}]>
                                  (goroutines s) in
                      match ret with
                      | Some err =>
                          Some {| world := world s;
                                  goroutines := gs;
                                  captured := captured s ++ [err];
                                  firstErr := match firstErr s with
                                              | None => Some err
                                              | Some e => Some e
                                              end;
                                  returned := None |}
                      | None =>
                          Some {| world := world s;
                                  goroutines := gs;
                                  captured := captured s;
                                  firstErr := firstErr s;
                                  returned := None |}
                      end
                  | _ => None
                  end
            | None => None
            end
        | PReturn =>
            if forallb joined (goroutines s)
            then Some {| world := world s;
                         goroutines := goroutines s;
                         captured := captured s;
                         firstErr := firstErr s;
                         returned := Some (firstErr s) |}
            else None
        end
  end.

(** The sequential head of [unpack]: the output directory, then one
    goroutine per sheet.  The messages printed and the progress bars are a
    display only and are left out. *)
Definition unpack_init (env : Env) (unpacker : Unpacker) (w : World) : PackState :=
  match os_MkdirAll env (OutputDir unpacker) with
  | Some err =>
      {| world := w; goroutines := []; captured := []; firstErr := None;
         returned := Some (Some (Errorf "failed to create output directory" err)) |}
  | None =>
      {| world := mkdir (OutputDir unpacker) w;
         goroutines :=
           map (fun sh => {| sheet_of := sh; run := run0; joined := false |})
               (Sheets (Pack_ unpacker));
         captured := []; firstErr := None; returned := None |}
  end.

(** ** Predicates used by the statements *)

(** The sizes [image.NewRGBA] accepts: the guard of [mul3NonNeg], spelled
    out for [bytesPerPixel = 4]. *)
Definition Size_ok (sz : Size.t) : Prop :=
  0 <= Size.Width sz /\ 0 <= Size.Height sz < 9223372036854775808 /\
  4 * Size.Width sz < 18446744073709551616 /\
  4 * Size.Width sz * Size.Height sz < 9223372036854775808.

(** Representation invariant of an [*image.RGBA] made by [image.NewRGBA]:
    the buffer holds one entry per point of [Rect], row by row. *)
Definition wf_RGBA (m : image.RGBA) : Prop :=
  let r := image.Rect m in
  let w := image.X (image.Max r) - image.X (image.Min r) in
  let h := image.Y (image.Max r) - image.Y (image.Min r) in
  int_range (image.X (image.Min r)) /\ int_range (image.Y (image.Min r)) /\
  int_range (image.X (image.Max r)) /\ int_range (image.Y (image.Max r)) /\
  0 <= w /\ 0 <= h /\ w * h < 9223372036854775808 /\
  image.Stride m = w /\ length (image.Pix m) = Z.to_nat (w * h).

(** Coordinates far enough from the ends of [int] that no sum or difference
    formed by [draw.Draw] wraps around. *)
Definition bounded (z : Z) : Prop := -1152921504606846976 <= z <= 1152921504606846976.

Definition bounded_Point (p : image.Point) : Prop :=
  bounded (image.X p) /\ bounded (image.Y p).

Definition bounded_Rectangle (r : image.Rectangle) : Prop :=
  bounded_Point (image.Min r) /\ bounded_Point (image.Max r).

Definition small (z : Z) : Prop := -576460752303423488 <= z <= 576460752303423488.

Definition Frame_small (fr : Frame.t) : Prop :=
  small (Frame.X fr) /\ small (Frame.Y fr) /\
  small (Frame.Width fr) /\ small (Frame.Height fr).

(** The manifest numbers and the bounds of the decoded image are small
    enough for [draw.Draw] to be free of wrap-around. *)
Definition geometry_small (t : Texture) (img : image.Image) : Prop :=
  Frame_small (Frame t) /\ Frame_small (SpriteSourceSize t) /\
  bounded (Size.Width (SourceSize t)) /\ bounded (Size.Height (SourceSize t)) /\
  bounded_Rectangle (image.Bounds img).

(** The data-model invariant on [frame]: it lies within the bounds of the
    sheet's image. *)
Definition Frame_in_image (fr : Frame.t) (img : image.Image) : Prop :=
  0 <= Frame.Width fr /\ 0 <= Frame.Height fr /\
  image.X (image.Min (image.Bounds img)) <= Frame.X fr /\
  Frame.X fr + Frame.Width fr <= image.X (image.Max (image.Bounds img)) /\
  image.Y (image.Min (image.Bounds img)) <= Frame.Y fr /\
  Frame.Y fr + Frame.Height fr <= image.Y (image.Max (image.Bounds img)).

(** The raw crop of the region [fr] of the source image, indexed from the
    crop's top-left corner; [None] where the crop has no pixel. *)
Definition crop (img : image.Image) (fr : Frame.t) (i j : Z) : option color.RGBA :=
  if (0 <=? i) && (i <? Frame.Width fr) && (0 <=? j) && (j <? Frame.Height fr)
     && image.Point_In {| image.X := Frame.X fr + i; image.Y := Frame.Y fr + j |}
          (image.Bounds img)
  then Some (image.At img (Frame.X fr + i) (Frame.Y fr + j))
  else None.

(** Rotated packing, as the specification describes it: the region of a
    rotated texture occupies [Height] columns and [Width] rows of the sheet
    (the interpretation of [frame] is swapped), and the pixel at offset
    [(i, j)] of the upright sprite is found in the sheet at one of the two
    positions below, according to the direction of the quarter turn. *)
Definition rotated_source_cw (fr : Frame.t) (i j : Z) : image.Point :=
  {| image.X := Frame.X fr + (Frame.Height fr - 1 - j); image.Y := Frame.Y fr + i |}.

Definition rotated_source_ccw (fr : Frame.t) (i j : Z) : image.Point :=
  {| image.X := Frame.X fr + j; image.Y := Frame.Y fr + (Frame.Width fr - 1 - i) |}.

Definition set_Trimmed (b : bool) (t : Texture) : Texture :=
  {| FileName := FileName t; Frame := Frame t; Rotated := Rotated t;
     SourceSize := SourceSize t; SpriteSourceSize := SpriteSourceSize t;
     Trimmed := b |}.

Definition set_Rotated (b : bool) (t : Texture) : Texture :=
  {| FileName := FileName t; Frame := Frame t; Rotated := b;
     SourceSize := SourceSize t; SpriteSourceSize := SpriteSourceSize t;
     Trimmed := Trimmed t |}.

(** The conditions under which every file operation of [unpackTexture]
    succeeds; the middle one is the size check of [png.Encoder.Encode]. *)
Definition io_ok (env : Env) (unpacker : Unpacker) (texture : Texture) : Prop :=
  (strings_Contains (FileName texture) "/" = true ->
   os_MkdirAll env (subDir env unpacker texture) = None) /\
  os_Create env (outputPath env unpacker texture) = None /\
  (0 < Size.Width (SourceSize texture) < 4294967296 /\
   0 < Size.Height (SourceSize texture) < 4294967296) /\
  File_Write env (outputPath env unpacker texture) = None /\
  File_Close env (outputPath env unpacker texture) = None.

(** The moves of [unpackSheet_step], one constructor per case, for proofs by
    inversion. *)
Inductive sheet_move (env : Env) (unpacker : Unpacker) (sheet : Sheet)
  : World * SheetRun -> World * SheetRun -> Prop :=
| move_open_fail w h err :
    os_Open env (sheetPath env unpacker sheet) = Some err ->
    sheet_move env unpacker sheet
      (w, {| st := SInit; hist := h |})
      (w, {| st := SDone (Some (Errorf "failed to open texture sheet" err));
             hist := h ++ [EvOpen (sheetPath env unpacker sheet)] |})
| move_decode_fail w h err :
    os_Open env (sheetPath env unpacker sheet) = None ->
    image_Decode env (sheetPath env unpacker sheet) = inl err ->
    sheet_move env unpacker sheet
      (w, {| st := SInit; hist := h |})
      (w, {| st := SDone (Some (Errorf "failed to decode webp file" err));
             hist := h ++ [EvOpen (sheetPath env unpacker sheet);
                           EvDecode (sheetPath env unpacker sheet)] |})
| move_start w h img :
    os_Open env (sheetPath env unpacker sheet) = None ->
    image_Decode env (sheetPath env unpacker sheet) = inr img ->
    sheet_move env unpacker sheet
      (w, {| st := SInit; hist := h |})
      (w, {| st := SPool img (Textures sheet)
                     (replicate (Z.to_nat (Workers unpacker)) Ready) [];
             hist := h ++ [EvOpen (sheetPath env unpacker sheet);
                           EvDecode (sheetPath env unpacker sheet)] |})
| move_receive w h img tex jobs ws res k :
    ws !! k = Some Ready ->
    sheet_move env unpacker sheet
      (w, {| st := SPool img (tex :: jobs) ws res; hist := h |})
      (w, {| st := SPool img jobs (<[k := Busy tex]> ws) res; hist := h |})
| move_closed w h img ws res k :
    ws !! k = Some Ready ->
    sheet_move env unpacker sheet
      (w, {| st := SPool img [] ws res; hist := h |})
      (w, {| st := SPool img [] (<[k := Exited]> ws) res; hist := h |})
| move_panic w h img jobs ws res k tex :
    ws !! k = Some (Busy tex) ->
    snd (unpackTexture env unpacker tex (Some img) w) = Panic ->
    sheet_move env unpacker sheet
      (w, {| st := SPool img jobs ws res; hist := h |})
      (fst (unpackTexture env unpacker tex (Some img) w),
       {| st := SPanic; hist := h ++ [EvUnpack tex img Panic] |})
| move_error w h img jobs ws res k tex err :
    ws !! k = Some (Busy tex) ->
    snd (unpackTexture env unpacker tex (Some img) w) = Return (Some err) ->
    sheet_move env unpacker sheet
      (w, {| st := SPool img jobs ws res; hist := h |})
      (fst (unpackTexture env unpacker tex (Some img) w),
       {| st := SPool img jobs (<[k := Exited]> ws) (res ++ [Some err]);
          hist := h ++ [EvUnpack tex img (Return (Some err))] |})
| move_success w h img jobs ws res k tex :
    ws !! k = Some (Busy tex) ->
    snd (unpackTexture env unpacker tex (Some img) w) = Return None ->
    sheet_move env unpacker sheet
      (w, {| st := SPool img jobs ws res; hist := h |})
      (fst (unpackTexture env unpacker tex (Some img) w),
       {| st := SPool img jobs (<[k := Ready]> ws) (res ++ [None]);
          hist := h ++ [EvUnpack tex img (Return None)] |})
| move_wait w h img jobs ws res :
    forallb is_Exited ws = true ->
    sheet_move env unpacker sheet
      (w, {| st := SPool img jobs ws res; hist := h |})
      (w, {| st := SDone (first_error res); hist := h |}).

(** ** Reading histories and pools *)

Fixpoint count {A : Type} (f : A -> bool) (l : list A) : nat :=
  match l with
  | [] => O
  | x :: l' => if f x then S (count f l') else count f l'
  end.

Definition is_open (e : Event) : bool :=
  match e with EvOpen _ => true | _ => false end.

Definition is_decode (e : Event) : bool :=
  match e with EvDecode _ => true | _ => false end.

(** The textures [unpackTexture] was called on to the end, oldest first. *)
Fixpoint unpacked (h : list Event) : list Texture :=
  match h with
  | [] => []
  | EvUnpack tex _ _ :: h' => tex :: unpacked h'
  | _ :: h' => unpacked h'
  end.

(** The textures held by the workers that are inside [unpackTexture]. *)
Fixpoint busy (ws : list WorkerState) : list Texture :=
  match ws with
  | [] => []
  | Busy tex :: ws' => tex :: busy ws'
  | _ :: ws' => busy ws'
  end.

Definition busy_of (ws : WorkerState) : list Texture :=
  match ws with Busy tex => [tex] | _ => [] end.

(** Whether [unpackTexture] returns an error on a texture; the answer does
    not depend on the files written so far. *)
Definition fails (env : Env) (unpacker : Unpacker) (img : image.Image) (tex : Texture) : bool :=
  match snd (unpackTexture env unpacker tex (Some img) {| dirs := ∅; files := ∅ |}) with
  | Return (Some _) => true
  | _ => false
  end.

Definition is_unpack_of (img : image.Image) (e : Event) : Prop :=
  exists tex o, e = EvUnpack tex img o.

(** What the history of a started pipeline looks like: one open; if it
    succeeded, one decode; if that succeeded too, calls of [unpackTexture]
    on the decoded image and nothing else. *)
Definition started_inv (env : Env) (unpacker : Unpacker) (sheet : Sheet)
    (w0 : World) (s : World * SheetRun) : Prop :=
  let p := sheetPath env unpacker sheet in
  match st (snd s) with
  | SInit => False
  | SPool img _ _ _ =>
      os_Open env p = None /\ image_Decode env p = inr img /\
      exists h, hist (snd s) = EvOpen p :: EvDecode p :: h /\ Forall (is_unpack_of img) h
  | SPanic =>
      os_Open env p = None /\
      exists img h, image_Decode env p = inr img /\
        hist (snd s) = EvOpen p :: EvDecode p :: h /\ Forall (is_unpack_of img) h
  | SDone ret =>
      (exists err, os_Open env p = Some err /\ hist (snd s) = [EvOpen p] /\
                   ret = Some (Errorf "failed to open texture sheet" err) /\ fst s = w0) \/
      (exists err, os_Open env p = None /\ image_Decode env p = inl err /\
                   hist (snd s) = [EvOpen p; EvDecode p] /\
                   ret = Some (Errorf "failed to decode webp file" err) /\ fst s = w0) \/
      (os_Open env p = None /\
       exists img h, image_Decode env p = inr img /\
         hist (snd s) = EvOpen p :: EvDecode p :: h /\ Forall (is_unpack_of img) h)
  end.

(** The pool's bookkeeping.  While the pool runs, every texture of the
    sheet is in exactly one place (already through [unpackTexture], held by
    a busy worker, or still to be handed over), and a worker has exited
    early only for a texture that failed.  Once the pipeline has returned,
    every texture has been through [unpackTexture], provided the sheet
    decoded and fewer textures fail than there are workers. *)
Definition pool_inv (env : Env) (unpacker : Unpacker) (sheet : Sheet) (r : SheetRun) : Prop :=
  let p := sheetPath env unpacker sheet in
  match st r with
  | SInit => hist r = []
  | SPool img jobs ws res =>
      image_Decode env p = inr img /\
      Permutation (Textures sheet) (unpacked (hist r) ++ busy ws ++ jobs) /\
      length ws = Z.to_nat (Workers unpacker) /\
      (jobs = [] \/
       (count is_Exited ws <= count (fails env unpacker img) (unpacked (hist r)))%nat)
  | SDone ret =>
      forall img,
        os_Open env p = None -> image_Decode env p = inr img ->
        (count (fails env unpacker img) (Textures sheet) < Z.to_nat (Workers unpacker))%nat ->
        Permutation (Textures sheet) (unpacked (hist r))
  | SPanic => True
  end.

(** The files of the textures that went through [unpackTexture] with every
    file operation succeeding hold their canvases. *)
Definition files_inv (env : Env) (unpacker : Unpacker) (sheet : Sheet)
    (s : World * SheetRun) : Prop :=
  forall img tex,
    image_Decode env (sheetPath env unpacker sheet) = inr img ->
    tex ∈ unpacked (hist (snd s)) -> io_ok env unpacker tex ->
    exists sprite,
      unpackTexture_sprite tex (Some img) = Some sprite /\
      files (fst s) !! outputPath env unpacker tex = Some (Some sprite).

(** The states of a pool of one worker whose first texture [bad] fails with
    [err]: the worker takes [bad], fails and exits; the rest of the queue
    is never taken. *)
Definition stuck_inv (img : image.Image) (bad : Texture) (rest : list Texture)
    (err : error) (r : SheetRun) : Prop :=
  match st r with
  | SInit => hist r = []
  | SPool img' jobs ws res =>
      img' = img /\
      ((jobs = bad :: rest /\ ws = [Ready] /\ res = [] /\ unpacked (hist r) = []) \/
       (jobs = rest /\ ws = [Busy bad] /\ res = [] /\ unpacked (hist r) = []) \/
       (jobs = rest /\ ws = [Exited] /\ res = [Some err] /\ unpacked (hist r) = [bad]))
  | SDone ret => ret = Some err /\ unpacked (hist r) = [bad]
  | SPanic => False
  end.

(** ** Measures and invariants of the whole run *)

(** How many moves a worker has left at most, the hand-overs apart. *)
Definition worker_weight (ws : WorkerState) : nat :=
  match ws with Ready => 1%nat | Busy _ => 2%nat | Exited => O end.

Fixpoint pool_weight (ws : list WorkerState) : nat :=
  match ws with
  | [] => O
  | w :: ws' => (worker_weight w + pool_weight ws')%nat
  end.

(** A bound on the number of moves a pipeline has left. *)
Definition sheet_mu (unpacker : Unpacker) (sheet : Sheet) (r : SheetRun) : nat :=
  match st r with
  | SInit => (2 * length (Textures sheet) + Z.to_nat (Workers unpacker) + 2)%nat
  | SPool _ jobs ws _ => (2 * length jobs + pool_weight ws + 1)%nat
  | SDone _ => O
  | SPanic => O
  end.

Definition goroutine_mu (unpacker : Unpacker) (g : Goroutine) : nat :=
  (sheet_mu unpacker (sheet_of g) (run g) + if joined g then 0 else 1)%nat.

Fixpoint goroutines_mu (unpacker : Unpacker) (gs : list Goroutine) : nat :=
  match gs with
  | [] => O
  | g :: gs' => (goroutine_mu unpacker g + goroutines_mu unpacker gs')%nat
  end.

Definition pack_mu (unpacker : Unpacker) (s : PackState) : nat :=
  (goroutines_mu unpacker (goroutines s)
   + match returned s with None => 1 | Some _ => 0 end)%nat.

(** What a sheet's pipeline returned, if it has returned an error. *)
Definition returned_error (g : Goroutine) : option error :=
  match st (run g) with SDone ret => ret | _ => None end.

Definition joined_error (g : Goroutine) : option error :=
  if joined g then returned_error g else None.

Definition goroutine_inv (env : Env) (unpacker : Unpacker) (g : Goroutine) : Prop :=
  pool_inv env unpacker (sheet_of g) (run g) /\
  (joined g = true -> exists ret, st (run g) = SDone ret) /\
  st (run g) <> SPanic.

Definition pack_inv (env : Env) (unpacker : Unpacker) (s : PackState) : Prop :=
  Forall (goroutine_inv env unpacker) (goroutines s) /\
  sheet_of <$> goroutines s = Sheets (Pack_ unpacker) /\
  firstErr s = head (captured s) /\
  captured s ≡ₚ omap joined_error (goroutines s) /\
  (forall r, returned s = Some r ->
             forallb joined (goroutines s) = true /\ r = firstErr s).

(** ** Concrete inputs for the examples *)

Definition red : color.RGBA := {| color.R := 255; color.G := 0; color.B := 0; color.A := 255 |}.
Definition green : color.RGBA := {| color.R := 0; color.G := 255; color.B := 0; color.A := 255 |}.
Definition blue : color.RGBA := {| color.R := 0; color.G := 0; color.B := 255; color.A := 255 |}.
Definition white : color.RGBA := {| color.R := 255; color.G := 255; color.B := 255; color.A := 255 |}.

(** A decoded 2x2 sheet: red and green on the top row, blue and white
    below. *)
Definition sheet2x2 : image.Image :=
  {| image.Bounds := {| image.Min := {| image.X := 0; image.Y := 0 |};
                        image.Max := {| image.X := 2; image.Y := 2 |} |};
     image.At := fun x y =>
       if (x =? 0) && (y =? 0) then red
       else if (x =? 1) && (y =? 0) then green
       else if (x =? 0) && (y =? 1) then blue
       else if (x =? 1) && (y =? 1) then white
       else color.zero |}.

(** An untrimmed texture covering the whole sheet. *)
Definition tex_plain : Texture :=
  {| FileName := "plain";
     Frame := {| Frame.Width := 2; Frame.Height := 2; Frame.X := 0; Frame.Y := 0 |};
     Rotated := false;
     SourceSize := {| Size.Width := 2; Size.Height := 2 |};
     SpriteSourceSize := {| Frame.Width := 2; Frame.Height := 2; Frame.X := 0; Frame.Y := 0 |};
     Trimmed := false |}.

(** Marked untrimmed, yet placed one column to the right in its canvas. *)
Definition tex_untrimmed_offset : Texture :=
  {| FileName := "offset";
     Frame := {| Frame.Width := 2; Frame.Height := 1; Frame.X := 0; Frame.Y := 0 |};
     Rotated := false;
     SourceSize := {| Size.Width := 2; Size.Height := 1 |};
     SpriteSourceSize := {| Frame.Width := 1; Frame.Height := 1; Frame.X := 1; Frame.Y := 0 |};
     Trimmed := false |}.

(** Trimmed, with a [spriteSourceSize] wider than [frame]. *)
Definition tex_trimmed_wide : Texture :=
  {| FileName := "wide";
     Frame := {| Frame.Width := 1; Frame.Height := 1; Frame.X := 0; Frame.Y := 0 |};
     Rotated := false;
     SourceSize := {| Size.Width := 2; Size.Height := 1 |};
     SpriteSourceSize := {| Frame.Width := 2; Frame.Height := 1; Frame.X := 0; Frame.Y := 0 |};
     Trimmed := true |}.

(** Trimmed: one pixel of the sheet put back at the right of a 2x1 canvas. *)
Definition tex_trimmed : Texture :=
  {| FileName := "dir/trimmed";
     Frame := {| Frame.Width := 1; Frame.Height := 1; Frame.X := 1; Frame.Y := 1 |};
     Rotated := false;
     SourceSize := {| Size.Width := 2; Size.Height := 1 |};
     SpriteSourceSize := {| Frame.Width := 1; Frame.Height := 1; Frame.X := 1; Frame.Y := 0 |};
     Trimmed := true |}.

(** Rotated: upright 2x1, so packed as one column of two rows. *)
Definition tex_rotated : Texture :=
  {| FileName := "rotated";
     Frame := {| Frame.Width := 2; Frame.Height := 1; Frame.X := 0; Frame.Y := 0 |};
     Rotated := true;
     SourceSize := {| Size.Width := 2; Size.Height := 1 |};
     SpriteSourceSize := {| Frame.Width := 2; Frame.Height := 1; Frame.X := 0; Frame.Y := 0 |};
     Trimmed := false |}.

(** A frame that lies wholly outside the 2x2 sheet. *)
Definition tex_outside : Texture :=
  {| FileName := "outside";
     Frame := {| Frame.Width := 1; Frame.Height := 1; Frame.X := 5; Frame.Y := 5 |};
     Rotated := false;
     SourceSize := {| Size.Width := 1; Size.Height := 1 |};
     SpriteSourceSize := {| Frame.Width := 1; Frame.Height := 1; Frame.X := 0; Frame.Y := 0 |};
     Trimmed := false |}.

(** An empty canvas: [png.Encoder.Encode] refuses it. *)
Definition tex_empty : Texture :=
  {| FileName := "empty";
     Frame := {| Frame.Width := 0; Frame.Height := 0; Frame.X := 0; Frame.Y := 0 |};
     Rotated := false;
     SourceSize := {| Size.Width := 0; Size.Height := 0 |};
     SpriteSourceSize := {| Frame.Width := 0; Frame.Height := 0; Frame.X := 0; Frame.Y := 0 |};
     Trimmed := false |}.

Fixpoint join_with_slash (l : list string) : string :=
  match l with
  | [] => ""
  | [s] => s
  | s :: l' => String.append s (String.append "/" (join_with_slash l'))
  end.

(** An environment in which every operation succeeds and every sheet
    decodes to [sheet2x2]. *)
Definition env_ok : Env :=
  {| filepath_Join := join_with_slash;
     os_MkdirAll := fun _ => None;
     os_Create := fun _ => None;
     File_Write := fun _ => None;
     File_Close := fun _ => None;
     os_Open := fun _ => None;
     image_Decode := fun _ => inr sheet2x2 |}.

Definition world0 : World := {| dirs := ∅; files := ∅ |}.

Definition mkUnpacker (sheets : list Sheet) (workers : Z) : Unpacker :=
  {| Pack_ := {| Meta := ∅; Sheets := sheets |};
     PackName := "pack"; InputDir := "in"; OutputDir := "out";
     Workers := workers |}.

(** A sheet whose first texture cannot be encoded and whose second is
    sound. *)
Definition sheet_empty_plain : Sheet :=
  {| Format := "RGBA8888"; Textures := [tex_empty; tex_plain];
     Image := "sheet.webp"; Scale := 1%float;
     Size := {| Size.Width := 2; Size.Height := 2 |} |}.

(** A sound sheet. *)
Definition sheet_two : Sheet :=
  {| Format := "RGBA8888"; Textures := [tex_plain; tex_trimmed];
     Image := "two.webp"; Scale := 1%float;
     Size := {| Size.Width := 2; Size.Height := 2 |} |}.

(** An environment in which the file "in/missing.webp" cannot be opened. *)
Definition env_missing : Env :=
  {| filepath_Join := join_with_slash;
     os_MkdirAll := fun _ => None;
     os_Create := fun _ => None;
     File_Write := fun _ => None;
     File_Close := fun _ => None;
     os_Open := fun p => if String.eqb p "in/missing.webp"
                         then Some (EnvError "no such file or directory") else None;
     image_Decode := fun _ => inr sheet2x2 |}.

Definition sheet_missing : Sheet :=
  {| Format := "RGBA8888"; Textures := [tex_plain];
     Image := "missing.webp"; Scale := 1%float;
     Size := {| Size.Width := 2; Size.Height := 2 |} |}.

(** Where the pipeline of [sheet_missing] stands after its only move. *)
Definition run_missing : SheetRun :=
  {| st := SDone (Some (Errorf "failed to open texture sheet"
                          (EnvError "no such file or directory")));
     hist := [EvOpen "in/missing.webp"] |}.

(** The error of [tex_empty]. *)
Definition err_empty : error :=
  Errorf "failed to encode sprite as png" (png_FormatError 0 0).

(** Two sheets, the first of which cannot be opened under [env_missing]. *)
Definition unpacker_two : Unpacker := mkUnpacker [sheet_missing; sheet_two] 2.

(** ** Further inputs and readings of histories *)

(** A size [image.NewRGBA] refuses. *)
Definition tex_negative : Texture :=
  {| FileName := "negative";
     Frame := {| Frame.Width := 1; Frame.Height := 1; Frame.X := 0; Frame.Y := 0 |};
     Rotated := false;
     SourceSize := {| Size.Width := -1; Size.Height := 1 |};
     SpriteSourceSize := {| Frame.Width := 1; Frame.Height := 1; Frame.X := 0; Frame.Y := 0 |};
     Trimmed := false |}.

(** A [spriteSourceSize] of negative width. *)
Definition tex_inverted : Texture :=
  {| FileName := "inverted";
     Frame := {| Frame.Width := 2; Frame.Height := 2; Frame.X := 0; Frame.Y := 0 |};
     Rotated := false;
     SourceSize := {| Size.Width := 2; Size.Height := 2 |};
     SpriteSourceSize := {| Frame.Width := -2; Frame.Height := 2; Frame.X := 2; Frame.Y := 0 |};
     Trimmed := true |}.

(** A frame that sticks out of the 2x2 sheet on the right. *)
Definition tex_overhang : Texture :=
  {| FileName := "overhang";
     Frame := {| Frame.Width := 2; Frame.Height := 1; Frame.X := 1; Frame.Y := 0 |};
     Rotated := false;
     SourceSize := {| Size.Width := 2; Size.Height := 1 |};
     SpriteSourceSize := {| Frame.Width := 2; Frame.Height := 1; Frame.X := 0; Frame.Y := 0 |};
     Trimmed := false |}.

Definition set_Frame_size (w h : Z) (t : Texture) : Texture :=
  {| FileName := FileName t;
     Frame := {| Frame.Width := w; Frame.Height := h;
                 Frame.X := Frame.X (Frame t); Frame.Y := Frame.Y (Frame t) |};
     Rotated := Rotated t; SourceSize := SourceSize t;
     SpriteSourceSize := SpriteSourceSize t; Trimmed := Trimmed t |}.

(** An environment in which no file can be closed. *)
Definition env_no_close : Env :=
  {| filepath_Join := join_with_slash;
     os_MkdirAll := fun _ => None;
     os_Create := fun _ => None;
     File_Write := fun _ => None;
     File_Close := fun _ => Some (EnvError "input/output error");
     os_Open := fun _ => None;
     image_Decode := fun _ => inr sheet2x2 |}.

(** The results sent on the channel, read off a history. *)
Fixpoint results_of (h : list Event) : list (option error) :=
  match h with
  | [] => []
  | EvUnpack _ _ (Return err) :: h' => err :: results_of h'
  | _ :: h' => results_of h'
  end.

(** An event of the history records a call that returned, with the outcome
    [unpackTexture] has on that texture and image. *)
Definition event_ok (env : Env) (unpacker : Unpacker) (e : Event) : Prop :=
  match e with
  | EvUnpack tex img o =>
      o = snd (unpackTexture env unpacker tex (Some img) {| dirs := ∅; files := ∅ |}) /\
      o <> Panic
  | _ => True
  end.

(** The results channel holds the outcomes of the calls made so far, oldest
    first, and the value returned is the first error among them. *)
Definition results_inv (env : Env) (unpacker : Unpacker) (sheet : Sheet)
    (r : SheetRun) : Prop :=
  match st r with
  | SInit => hist r = []
  | SPool _ _ _ res =>
      Forall (event_ok env unpacker) (hist r) /\ res = results_of (hist r)
  | SDone ret =>
      forall img,
        os_Open env (sheetPath env unpacker sheet) = None ->
        image_Decode env (sheetPath env unpacker sheet) = inr img ->
        Forall (event_ok env unpacker) (hist r) /\
        ret = first_error (results_of (hist r))
  | SPanic => True
  end.

(** No texture goes through [unpackTexture] more often than the sheet lists
    it. *)
Definition accounted_inv (sheet : Sheet) (r : SheetRun) : Prop :=
  exists rest, Textures sheet ≡ₚ unpacked (hist r) ++ rest.

(** A pool without workers. *)
Definition idle_inv (env : Env) (unpacker : Unpacker) (sheet : Sheet)
    (w0 : World) (s : World * SheetRun) : Prop :=
  fst s = w0 /\ unpacked (hist (snd s)) = [] /\
  match st (snd s) with
  | SInit => True
  | SPool _ _ ws res => ws = [] /\ res = []
  | SDone ret =>
      os_Open env (sheetPath env unpacker sheet) = None ->
      forall img, image_Decode env (sheetPath env unpacker sheet) = inr img -> ret = None
  | SPanic => False
  end.

Definition sheet_final (s : World * SheetRun) : Prop :=
  (exists ret, st (snd s) = SDone ret) \/ st (snd s) = SPanic.

(** Where the pipeline of [sheet_empty_plain] stands, with one worker, once
    it has returned. *)
Definition run_empty_plain : SheetRun :=
  {| st := SDone (Some err_empty);
     hist := [EvOpen "in/sheet.webp"; EvDecode "in/sheet.webp";
              EvUnpack tex_empty sheet2x2 (Return (Some err_empty))] |}.

(** The pipeline of [sheet_two] with two workers, run to its end. *)
Definition schedule_two : list SheetChoice :=
  [CStart; CWorker 0; CWorker 1; CWorker 0; CWorker 1; CWorker 0; CWorker 1; CWait].

Definition final_two : World * SheetRun :=
  match exec (unpackSheet_step env_ok (mkUnpacker [sheet_two] 2) sheet_two)
          schedule_two (world0, run0) with
  | Some s => s
  | None => (world0, run0)
  end.

(** The most moves a run of [unpack] over these sheets can make. *)
Fixpoint pack_bound (unpacker : Unpacker) (sheets : list Sheet) : nat :=
  match sheets with
  | [] => 1%nat
  | sh :: sheets' =>
      (2 * length (Textures sh) + Z.to_nat (Workers unpacker) + 3
       + pack_bound unpacker sheets')%nat
  end.

(** The run of [unpacker_two] under [env_missing], half way and at its
    end. *)
Definition schedule_mid : list PackChoice :=
  [PSheet 0 CStart; PSheet 1 CStart; PSheet 1 (CWorker 0); PJoin 0].

Definition schedule_rest : list PackChoice :=
  [PSheet 1 (CWorker 1); PSheet 1 (CWorker 1); PSheet 1 (CWorker 0);
   PSheet 1 (CWorker 0); PSheet 1 (CWorker 1); PSheet 1 CWait; PJoin 1; PReturn].

Definition pack_mid : PackState :=
  match exec (unpack_step env_missing unpacker_two) schedule_mid
          (unpack_init env_missing unpacker_two world0) with
  | Some s => s
  | None => unpack_init env_missing unpacker_two world0
  end.

Definition pack_end : PackState :=
  match exec (unpack_step env_missing unpacker_two) schedule_rest pack_mid with
  | Some s => s
  | None => pack_mid
  end.

(** Every texture of a pack, sheet after sheet. *)
Definition all_textures (unpacker : Unpacker) : list Texture :=
  concat (Textures <$> Sheets (Pack_ unpacker)).

(** Across the goroutines of a run: the accounts of each pipeline, and the
    files of the textures it has put through [unpackTexture]. *)
Definition pack_files_inv (env : Env) (unpacker : Unpacker) (w0 : World)
    (s : PackState) : Prop :=
  (forall j g, goroutines s !! j = Some g ->
     accounted_inv (sheet_of g) (run g) /\
     files_inv env unpacker (sheet_of g) (world s, run g)) /\
  (forall q, (forall t, t ∈ all_textures unpacker -> q <> outputPath env unpacker t) ->
             files (world s) !! q = files w0 !! q).

(** A second sound sheet, and a pack of two sound sheets. *)
Definition sheet_more : Sheet :=
  {| Format := "RGBA8888"; Textures := [tex_outside; tex_overhang];
     Image := "more.webp"; Scale := 1%float;
     Size := {| Size.Width := 2; Size.Height := 2 |} |}.

Definition unpacker_sound : Unpacker := mkUnpacker [sheet_two; sheet_more] 2.

Definition schedule_sound : list PackChoice :=
  [PSheet 0 CStart; PSheet 1 CStart;
   PSheet 0 (CWorker 0); PSheet 1 (CWorker 0); PSheet 0 (CWorker 1); PSheet 1 (CWorker 1);
   PSheet 0 (CWorker 0); PSheet 0 (CWorker 1); PSheet 1 (CWorker 0); PSheet 1 (CWorker 1);
   PSheet 0 (CWorker 0); PSheet 0 (CWorker 1); PSheet 1 (CWorker 0); PSheet 1 (CWorker 1);
   PSheet 0 CWait; PSheet 1 CWait; PJoin 1; PJoin 0; PReturn].

Definition pack_sound_end : PackState :=
  match exec (unpack_step env_ok unpacker_sound) schedule_sound
          (unpack_init env_ok unpacker_sound world0) with
  | Some s => s
  | None => unpack_init env_ok unpacker_sound world0
  end.

(** ** [main]: the default of the [--workers] flag *)

(** [workers := 2 * runtime.NumCPU()], lowered to 32 when above it; the
    product is an [int] and wraps. *)
Definition main_workers (numCPU : Z) : Z :=
  let workers := 2 *' numCPU in
  if 32 <? workers then 32 else workers.
(** * Properties *)

(** ** Machine integers *)

Lemma wrap_small (z : Z) : int_range z -> wrap z = z.
Proof.
  unfold int_range, wrap. intros Hz.
  rewrite Z.mod_small by lia. lia.
Qed.

Lemma wrap_add_sub (a b : Z) : int_range a -> a +' b -' b = a.
Proof.
  intros Ha. unfold iadd, isub, wrap.
  replace ((a + b + 9223372036854775808) mod 18446744073709551616
           - 9223372036854775808 - b + 9223372036854775808)
    with ((a + b + 9223372036854775808) mod 18446744073709551616 + - b) by lia.
  rewrite Zplus_mod_idemp_l.
  replace (a + b + 9223372036854775808 + - b) with (a + 9223372036854775808) by lia.
  unfold int_range in Ha. rewrite Z.mod_small by lia. lia.
Qed.

Ltac unwrap :=
  unfold iadd, isub, imul in *;
  repeat match goal with
    | |- context [wrap ?z] => rewrite (wrap_small z) by (unfold int_range; lia)
    end.

Ltac zbool :=
  repeat match goal with
    | |- context [?a <=? ?b] => destruct (Z.leb_spec a b)
    | |- context [?a <? ?b] => destruct (Z.ltb_spec a b)
    | |- context [?a =? ?b] => destruct (Z.eqb_spec a b)
    | H : context [?a <=? ?b] |- _ => destruct (Z.leb_spec a b)
    | H : context [?a <? ?b] |- _ => destruct (Z.ltb_spec a b)
    | H : context [?a =? ?b] |- _ => destruct (Z.eqb_spec a b)
    end; simpl in *.

Ltac solve_if :=
  zbool; subst; simpl;
  repeat match goal with
    | |- context [image.Point_In ?p ?r] => destruct (image.Point_In p r)
    end;
  simpl; try reflexivity; try lia; try (f_equal; lia).

(** ** Rectangles *)

Section Rectangles.
Import image.

Lemma Point_In_spec (p : Point) (r : Rectangle) :
  Point_In p r = true <->
  X (Min r) <= X p < X (Max r) /\ Y (Min r) <= Y p < Y (Max r).
Proof. unfold Point_In. zbool; split; (congruence || lia). Qed.

Lemma Point_In_ZR (p : Point) : Point_In p ZR = false.
Proof. unfold Point_In, ZR. simpl. zbool; (reflexivity || lia). Qed.

Lemma Point_In_Intersect (p : Point) (r s : Rectangle) :
  Point_In p (Rectangle_Intersect r s) = Point_In p r && Point_In p s.
Proof.
  unfold Rectangle_Intersect.
  set (r' := Build_Rectangle _ _).
  assert (Hr' : Point_In p r' = Point_In p r && Point_In p s).
  { apply eq_true_iff_eq. rewrite andb_true_iff, !Point_In_spec.
    unfold r'. simpl.
    destruct (Z.ltb_spec (X (Min r)) (X (Min s))),
      (Z.ltb_spec (Y (Min r)) (Y (Min s))),
      (Z.ltb_spec (X (Max s)) (X (Max r))),
      (Z.ltb_spec (Y (Max s)) (Y (Max r))); lia. }
  destruct (Rectangle_Empty r') eqn:He; [|exact Hr'].
  rewrite Point_In_ZR, <- Hr'. symmetry.
  apply not_true_is_false. rewrite Point_In_spec.
  unfold Rectangle_Empty in He. apply orb_true_iff in He.
  rewrite !Z.leb_le in He. lia.
Qed.

Lemma Rectangle_Empty_no_point (r : Rectangle) (p : Point) :
  Rectangle_Empty r = true -> Point_In p r = false.
Proof.
  unfold Rectangle_Empty. intros He. apply orb_true_iff in He.
  rewrite !Z.leb_le in He. apply not_true_is_false.
  rewrite Point_In_spec. lia.
Qed.
End Rectangles.

(** ** The pixel buffer of an [*image.RGBA] *)

Section PixelBuffer.
Import image.

Lemma PixOffset_eq (m : RGBA) (x y : Z) :
  wf_RGBA m -> Point_In {| X := x; Y := y |} (Rect m) = true ->
  PixOffset m x y =
    (y - Y (Min (Rect m))) * (X (Max (Rect m)) - X (Min (Rect m))) + (x - X (Min (Rect m)))
  /\ 0 <= PixOffset m x y
     < (X (Max (Rect m)) - X (Min (Rect m))) * (Y (Max (Rect m)) - Y (Min (Rect m))).
Proof.
  unfold wf_RGBA, PixOffset, int_range. intros Hwf Hin.
  apply Point_In_spec in Hin. simpl in Hin.
  destruct Hwf as (H1 & H2 & H3 & H4 & Hw & Hh & Hwh & Hs & Hl).
  rewrite Hs.
  set (w := X (Max (Rect m)) - X (Min (Rect m))) in *.
  set (h := Y (Max (Rect m)) - Y (Min (Rect m))) in *.
  set (dy := y - Y (Min (Rect m))). set (dx := x - X (Min (Rect m))).
  assert (Hdy : 0 <= dy < h) by (unfold dy, h; lia).
  assert (Hdx : 0 <= dx < w) by (unfold dx, w; lia).
  assert (Hm : 0 <= dy * w <= (h - 1) * w) by nia.
  assert (Hb : dy * w + dx < w * h) by nia.
  assert (Hh' : h <= w * h) by nia.
  assert (Hw' : w <= w * h) by nia.
  unfold iadd, isub, imul. fold dy dx.
  rewrite (wrap_small dy) by (unfold int_range; lia).
  rewrite (wrap_small dx) by (unfold int_range; lia).
  rewrite (wrap_small (dy * w)) by (unfold int_range; lia).
  rewrite (wrap_small (dy * w + dx)) by (unfold int_range; lia).
  split; [reflexivity|]. lia.
Qed.

(** No read or write of [RGBAAt] and [Set_] is out of the buffer's range. *)
Lemma PixOffset_in_range (m : RGBA) (x y : Z) :
  wf_RGBA m -> Point_In {| X := x; Y := y |} (Rect m) = true ->
  (Z.to_nat (PixOffset m x y) < length (Pix m))%nat.
Proof.
  intros Hwf Hin. destruct (PixOffset_eq m x y Hwf Hin) as [_ Hr].
  destruct Hwf as (_ & _ & _ & _ & _ & _ & _ & _ & Hl).
  rewrite Hl. lia.
Qed.

Lemma PixOffset_inj (m : RGBA) (x y x' y' : Z) :
  wf_RGBA m ->
  Point_In {| X := x; Y := y |} (Rect m) = true ->
  Point_In {| X := x'; Y := y' |} (Rect m) = true ->
  Z.to_nat (PixOffset m x y) = Z.to_nat (PixOffset m x' y') ->
  x = x' /\ y = y'.
Proof.
  intros Hwf Hin Hin' Heq.
  destruct (PixOffset_eq m x y Hwf Hin) as [E1 R1].
  destruct (PixOffset_eq m x' y' Hwf Hin') as [E2 R2].
  apply Z2Nat.inj in Heq; [|lia|lia].
  rewrite E1, E2 in Heq.
  apply Point_In_spec in Hin, Hin'. simpl in Hin, Hin'.
  assert (y = y') by nia. subst y'. split; [lia|reflexivity].
Qed.

Lemma Set__Rect (m : RGBA) (x y : Z) (c : color.RGBA) : Rect (Set_ m x y c) = Rect m.
Proof. unfold Set_. destruct (negb _); reflexivity. Qed.

Lemma Set__wf (m : RGBA) (x y : Z) (c : color.RGBA) : wf_RGBA m -> wf_RGBA (Set_ m x y c).
Proof.
  unfold Set_. destruct (negb _); [tauto|].
  unfold wf_RGBA. simpl. rewrite length_insert. tauto.
Qed.

Lemma RGBAAt_Set_ (m : RGBA) (x y : Z) (c : color.RGBA) (x' y' : Z) :
  wf_RGBA m ->
  RGBAAt (Set_ m x y c) x' y' =
    if (x' =? x) && (y' =? y) && Point_In {| X := x; Y := y |} (Rect m)
    then c else RGBAAt m x' y'.
Proof.
  intros Hwf. unfold RGBAAt. rewrite Set__Rect.
  destruct (Point_In {| X := x; Y := y |} (Rect m)) eqn:Hin.
  - destruct (Z.eqb_spec x' x) as [->|Hx]; simpl.
    + destruct (Z.eqb_spec y' y) as [->|Hy]; simpl.
      * rewrite Hin. simpl. unfold Set_. rewrite Hin. simpl.
        unfold PixOffset at 1. simpl. fold (PixOffset m x y).
        rewrite list_lookup_insert_eq by (apply PixOffset_in_range; assumption).
        reflexivity.
      * destruct (Point_In {| X := x; Y := y' |} (Rect m)) eqn:Hin'; [|reflexivity].
        simpl. unfold Set_. rewrite Hin. simpl.
        unfold PixOffset at 1. simpl. fold (PixOffset m x y').
        rewrite list_lookup_insert_ne; [reflexivity|].
        intros E. apply PixOffset_inj in E; try assumption. lia.
    + destruct (Point_In {| X := x'; Y := y' |} (Rect m)) eqn:Hin'; [|reflexivity].
      simpl. unfold Set_. rewrite Hin. simpl.
      unfold PixOffset at 1. simpl. fold (PixOffset m x' y').
      rewrite list_lookup_insert_ne; [reflexivity|].
      intros E. apply PixOffset_inj in E; try assumption. lia.
  - rewrite andb_false_r. unfold Set_. rewrite Hin. reflexivity.
Qed.
End PixelBuffer.

(** ** The copy loops of [draw.Draw] *)

Section DrawLoops.
Import image draw.

Lemma drawRow_Rect n src y sy : forall x sx dst,
  Rect (drawRow n src y sy x sx dst) = Rect dst.
Proof.
  induction n as [|n IH]; intros; simpl; [reflexivity|].
  rewrite IH. apply Set__Rect.
Qed.

Lemma drawRow_wf n src y sy : forall x sx dst,
  wf_RGBA dst -> wf_RGBA (drawRow n src y sy x sx dst).
Proof.
  induction n as [|n IH]; intros; simpl; [assumption|].
  apply IH. apply Set__wf. assumption.
Qed.

Lemma drawRow_At n src y sy : forall x sx dst px py,
  wf_RGBA dst ->
  int_range x -> int_range (x + Z.of_nat n) ->
  int_range sx -> int_range (sx + Z.of_nat n) ->
  RGBAAt (drawRow n src y sy x sx dst) px py =
    if (py =? y) && (x <=? px) && (px <? x + Z.of_nat n)
       && Point_In {| X := px; Y := py |} (Rect dst)
    then At src (sx + (px - x)) sy
    else RGBAAt dst px py.
Proof.
  induction n as [|n IH]; intros x sx dst px py Hwf Hx Hxn Hsx Hsxn.
  - simpl. rewrite Z.add_0_r. solve_if.
  - cbn [drawRow]. unfold int_range in *.
    assert (E1 : x +' 1 = x + 1) by (unwrap; reflexivity).
    assert (E2 : sx +' 1 = sx + 1) by (unwrap; reflexivity).
    rewrite E1, E2.
    rewrite IH; try (apply Set__wf; assumption); unfold int_range; try lia.
    rewrite Set__Rect, RGBAAt_Set_ by assumption.
    rewrite Nat2Z.inj_succ. solve_if.
Qed.

Lemma drawRows_Rect m n src x0 sx0 : forall y sy dst,
  Rect (drawRows m n src x0 sx0 y sy dst) = Rect dst.
Proof.
  induction m as [|m IH]; intros; simpl; [reflexivity|].
  rewrite IH. apply drawRow_Rect.
Qed.

Lemma drawRows_wf m n src x0 sx0 : forall y sy dst,
  wf_RGBA dst -> wf_RGBA (drawRows m n src x0 sx0 y sy dst).
Proof.
  induction m as [|m IH]; intros; simpl; [assumption|].
  apply IH. apply drawRow_wf. assumption.
Qed.

Lemma drawRows_At m n src x0 sx0 : forall y sy dst px py,
  wf_RGBA dst ->
  int_range x0 -> int_range (x0 + Z.of_nat n) ->
  int_range sx0 -> int_range (sx0 + Z.of_nat n) ->
  int_range y -> int_range (y + Z.of_nat m) ->
  int_range sy -> int_range (sy + Z.of_nat m) ->
  RGBAAt (drawRows m n src x0 sx0 y sy dst) px py =
    if (y <=? py) && (py <? y + Z.of_nat m)
       && ((x0 <=? px) && (px <? x0 + Z.of_nat n))
       && Point_In {| X := px; Y := py |} (Rect dst)
    then At src (sx0 + (px - x0)) (sy + (py - y))
    else RGBAAt dst px py.
Proof.
  induction m as [|m IH]; intros y sy dst px py Hwf Hx Hxn Hsx Hsxn Hy Hym Hsy Hsym.
  - simpl. rewrite Z.add_0_r. solve_if.
  - cbn [drawRows]. unfold int_range in *.
    assert (E1 : y +' 1 = y + 1) by (unwrap; reflexivity).
    assert (E2 : sy +' 1 = sy + 1) by (unwrap; reflexivity).
    rewrite E1, E2.
    rewrite IH; try (apply drawRow_wf; assumption); unfold int_range; try lia.
    rewrite drawRow_Rect, drawRow_At by (assumption || (unfold int_range; lia)).
    rewrite Nat2Z.inj_succ. solve_if.
Qed.
End DrawLoops.

(** ** [draw.Draw] in closed form *)

Section DrawClosedForm.
Import image draw.

Lemma Rectangle_Empty_ZR : Rectangle_Empty ZR = true.
Proof. reflexivity. Qed.

Lemma Rectangle_Intersect_cases (r s : Rectangle) :
  Rectangle_Intersect r s = ZR \/
  (X (Min (Rectangle_Intersect r s)) = Z.max (X (Min r)) (X (Min s)) /\
   Y (Min (Rectangle_Intersect r s)) = Z.max (Y (Min r)) (Y (Min s)) /\
   X (Max (Rectangle_Intersect r s)) = Z.min (X (Max r)) (X (Max s)) /\
   Y (Max (Rectangle_Intersect r s)) = Z.min (Y (Max r)) (Y (Max s)) /\
   Rectangle_Empty (Rectangle_Intersect r s) = false).
Proof.
  unfold Rectangle_Intersect.
  set (r' := Build_Rectangle _ _).
  destruct (Rectangle_Empty r') eqn:He; [left; reflexivity|right].
  rewrite He. unfold r'. simpl.
  destruct (Z.ltb_spec (X (Min r)) (X (Min s))),
    (Z.ltb_spec (Y (Min r)) (Y (Min s))),
    (Z.ltb_spec (X (Max s)) (X (Max r))),
    (Z.ltb_spec (Y (Max s)) (Y (Max r))); repeat split; lia.
Qed.

Lemma Rectangle_Intersect_within (B : Z) (r s : Rectangle) :
  0 <= B ->
  (-B <= X (Min r) <= B /\ -B <= Y (Min r) <= B /\
   -B <= X (Max r) <= B /\ -B <= Y (Max r) <= B) ->
  (-B <= X (Min s) <= B /\ -B <= Y (Min s) <= B /\
   -B <= X (Max s) <= B /\ -B <= Y (Max s) <= B) ->
  let r' := Rectangle_Intersect r s in
  -B <= X (Min r') <= B /\ -B <= Y (Min r') <= B /\
  -B <= X (Max r') <= B /\ -B <= Y (Max r') <= B.
Proof.
  intros HB Hr Hs r'. unfold r'.
  destruct (Rectangle_Intersect_cases r s) as [E|(E1 & E2 & E3 & E4 & _)].
  - rewrite E. simpl. lia.
  - rewrite E1, E2, E3, E4. lia.
Qed.

Lemma Rectangle_nonempty_spec (r : Rectangle) :
  Rectangle_Empty r = false <-> X (Min r) < X (Max r) /\ Y (Min r) < Y (Max r).
Proof.
  unfold Rectangle_Empty. rewrite orb_false_iff, !Z.leb_gt. tauto.
Qed.

Lemma clip_spec (dst : RGBA) (r : Rectangle) (src : Image) (sp : Point) :
  bounded_Rectangle (Rect dst) -> bounded_Rectangle r ->
  bounded_Rectangle (Bounds src) -> bounded_Point sp ->
  let r2 := fst (clip dst r src sp) in
  let sp2 := snd (clip dst r src sp) in
  (forall px py,
      Point_In {| X := px; Y := py |} r2 =
        Point_In {| X := px; Y := py |} r
        && Point_In {| X := px; Y := py |} (Rect dst)
        && Point_In {| X := X sp + (px - X (Min r)); Y := Y sp + (py - Y (Min r)) |}
             (Bounds src)) /\
  X sp2 = X sp + (X (Min r2) - X (Min r)) /\
  Y sp2 = Y sp + (Y (Min r2) - Y (Min r)) /\
  (-4611686018427387904 <= X (Min r2) <= 4611686018427387904 /\
   -4611686018427387904 <= Y (Min r2) <= 4611686018427387904 /\
   -4611686018427387904 <= X (Max r2) <= 4611686018427387904 /\
   -4611686018427387904 <= Y (Max r2) <= 4611686018427387904).
Proof.
  unfold bounded_Rectangle, bounded_Point, bounded.
  intros (Hd1 & Hd2) (Hr1 & Hr2) (Hb1 & Hb2) Hsp.
  unfold clip.
  set (d := Point_Sub (Min r) sp).
  set (s2 := Rectangle_Add (Bounds src) d).
  set (r1 := Rectangle_Intersect r (Rect dst)).
  set (r2 := Rectangle_Intersect r1 s2).
  assert (Ed : X d = X (Min r) - X sp /\ Y d = Y (Min r) - Y sp).
  { unfold d, Point_Sub. simpl. unwrap. split; reflexivity. }
  destruct Ed as [Edx Edy]. clearbody d.
  assert (Es2 : X (Min s2) = X (Min (Bounds src)) + X d /\
                Y (Min s2) = Y (Min (Bounds src)) + Y d /\
                X (Max s2) = X (Max (Bounds src)) + X d /\
                Y (Max s2) = Y (Max (Bounds src)) + Y d).
  { unfold s2, Rectangle_Add. cbn [Min Max X Y]. rewrite Edx, Edy. unwrap. repeat split. }
  destruct Es2 as (Es2a & Es2b & Es2c & Es2d). clearbody s2.
  assert (Hr1' : -4611686018427387904 <= X (Min r1) <= 4611686018427387904 /\
                 -4611686018427387904 <= Y (Min r1) <= 4611686018427387904 /\
                 -4611686018427387904 <= X (Max r1) <= 4611686018427387904 /\
                 -4611686018427387904 <= Y (Max r1) <= 4611686018427387904).
  { apply (Rectangle_Intersect_within 4611686018427387904); lia. }
  assert (Hr2' : -4611686018427387904 <= X (Min r2) <= 4611686018427387904 /\
                 -4611686018427387904 <= Y (Min r2) <= 4611686018427387904 /\
                 -4611686018427387904 <= X (Max r2) <= 4611686018427387904 /\
                 -4611686018427387904 <= Y (Max r2) <= 4611686018427387904).
  { apply (Rectangle_Intersect_within 4611686018427387904); [lia|exact Hr1'|].
    rewrite Es2a, Es2b, Es2c, Es2d, Edx, Edy. lia. }
  assert (Hin : forall px py,
      Point_In {| X := px; Y := py |} r2 =
        Point_In {| X := px; Y := py |} r
        && Point_In {| X := px; Y := py |} (Rect dst)
        && Point_In {| X := X sp + (px - X (Min r)); Y := Y sp + (py - Y (Min r)) |}
             (Bounds src)).
  { intros px py. unfold r2, r1. rewrite !Point_In_Intersect. f_equal.
    apply eq_true_iff_eq. rewrite !Point_In_spec. simpl.
    rewrite Es2a, Es2b, Es2c, Es2d, Edx, Edy. lia. }
  assert (Edx2 : X (Min r2) -' X (Min r) = X (Min r2) - X (Min r)) by (unwrap; reflexivity).
  assert (Edy2 : Y (Min r2) -' Y (Min r) = Y (Min r2) - Y (Min r)) by (unwrap; reflexivity).
  rewrite Edx2, Edy2.
  destruct (Z.eqb_spec (X (Min r2) - X (Min r)) 0) as [E0|E0];
    [destruct (Z.eqb_spec (Y (Min r2) - Y (Min r)) 0) as [E1|E1]|];
    simpl; (split; [exact Hin|]); (split; [|split; [|exact Hr2']]);
    try (unwrap; reflexivity); lia.
Qed.

(** The whole of [draw.Draw] with [draw.Src] over a well-formed canvas:
    a destination pixel is overwritten exactly when it lies in [r], in the
    canvas and its preimage lies in the source bounds; it then holds the
    source pixel at the same offset from [sp] as it has from [r.Min]. *)
Lemma Draw_At (dst : RGBA) (r : Rectangle) (src : Image) (sp : Point) :
  wf_RGBA dst ->
  bounded_Rectangle (Rect dst) -> bounded_Rectangle r ->
  bounded_Rectangle (Bounds src) -> bounded_Point sp ->
  exists out,
    Draw dst r (Some src) sp = Some out /\ Rect out = Rect dst /\ wf_RGBA out /\
    forall px py,
      RGBAAt out px py =
        if Point_In {| X := px; Y := py |} r
           && Point_In {| X := px; Y := py |} (Rect dst)
           && Point_In {| X := X sp + (px - X (Min r)); Y := Y sp + (py - Y (Min r)) |}
                (Bounds src)
        then At src (X sp + (px - X (Min r))) (Y sp + (py - Y (Min r)))
        else RGBAAt dst px py.
Proof.
  intros Hwf Hd Hr Hb Hsp.
  destruct (clip_spec dst r src sp Hd Hr Hb Hsp) as (Hin & Ex & Ey & Hr2).
  unfold Draw. destruct (clip dst r src sp) as [r2 sp2]. simpl in *.
  destruct (Rectangle_Empty r2) eqn:He.
  - exists dst. split; [reflexivity|]. split; [reflexivity|]. split; [assumption|].
    intros px py. rewrite <- Hin, (Rectangle_Empty_no_point _ _ He). reflexivity.
  - eexists. split; [reflexivity|]. split; [apply drawRows_Rect|].
    split; [apply drawRows_wf; assumption|].
    apply Rectangle_nonempty_spec in He.
    unfold bounded_Rectangle, bounded_Point, bounded in *.
    intros px py.
    assert (Esx : X sp2 +' X (Min r2) -' X (Min r2) = X sp2)
      by (apply wrap_add_sub; unfold int_range; lia).
    assert (Esy : Y sp2 +' Y (Min r2) -' Y (Min r2) = Y sp2)
      by (apply wrap_add_sub; unfold int_range; lia).
    rewrite Esx, Esy.
    rewrite drawRows_At; try assumption; unfold int_range; rewrite ?Z2Nat.id; try lia.
    rewrite <- Hin.
    replace (X (Min r2) + (X (Max r2) - X (Min r2))) with (X (Max r2)) by lia.
    replace (Y (Min r2) + (Y (Max r2) - Y (Min r2))) with (Y (Max r2)) by lia.
    assert (Hsub : Point_In {| X := px; Y := py |} r2 = true ->
                   Point_In {| X := px; Y := py |} (Rect dst) = true).
    { rewrite Hin, !andb_true_iff. tauto. }
    rewrite Ex, Ey.
    destruct (Point_In {| X := px; Y := py |} r2) eqn:E2.
    + rewrite Hsub by reflexivity. rewrite andb_true_r.
      apply Point_In_spec in E2. simpl in E2.
      replace ((Y (Min r2) <=? py) && (py <? Y (Max r2))
               && ((X (Min r2) <=? px) && (px <? X (Max r2)))) with true
        by (symmetry; rewrite !andb_true_iff, !Z.leb_le, !Z.ltb_lt; lia).
      f_equal; lia.
    + replace ((Y (Min r2) <=? py) && (py <? Y (Max r2))
               && ((X (Min r2) <=? px) && (px <? X (Max r2)))) with false; [reflexivity|].
      symmetry. apply not_true_iff_false. intros Ht.
      rewrite !andb_true_iff, !Z.leb_le, !Z.ltb_lt in Ht.
      apply not_true_iff_false in E2. apply E2. apply Point_In_spec. simpl. lia.
Qed.
End DrawClosedForm.

(** ** [image.NewRGBA] *)

Section NewCanvas.
Import image.

Lemma Size_Rect_Dx (sz : Size.t) :
  int_range (Size.Width sz) -> Rectangle_Dx (Size.Rect sz) = Size.Width sz.
Proof.
  intros H. unfold Rectangle_Dx, Size.Rect, isub. simpl.
  rewrite Z.sub_0_r. apply wrap_small, H.
Qed.

Lemma Size_Rect_Dy (sz : Size.t) :
  int_range (Size.Height sz) -> Rectangle_Dy (Size.Rect sz) = Size.Height sz.
Proof.
  intros H. unfold Rectangle_Dy, Size.Rect, isub. simpl.
  rewrite Z.sub_0_r. apply wrap_small, H.
Qed.

Lemma mul3NonNeg_4 (w h : Z) :
  0 <= w -> 0 <= h -> 4 * w < 18446744073709551616 ->
  4 * w * h < 9223372036854775808 ->
  mul3NonNeg 4 w h = 4 * w * h.
Proof.
  intros Hw Hh H1 H2. unfold mul3NonNeg.
  destruct (Z.ltb_spec w 0); [lia|]. destruct (Z.ltb_spec h 0); [lia|]. simpl.
  destruct (Z.leb_spec 18446744073709551616 (4 * w)); [lia|].
  destruct (Z.leb_spec 18446744073709551616 (4 * w * h)); [lia|].
  destruct (Z.leb_spec 9223372036854775808 (4 * w * h)); [lia|]. reflexivity.
Qed.

Lemma RGBAAt_replicate (n : nat) (st : Z) (r : Rectangle) (x y : Z) :
  RGBAAt {| Pix := replicate n color.zero; Stride := st; Rect := r |} x y = color.zero.
Proof.
  unfold RGBAAt. simpl. destruct (negb _); [reflexivity|].
  destruct (replicate n color.zero !! _) eqn:E; [|reflexivity].
  apply lookup_replicate in E. simpl. tauto.
Qed.

(** On an accepted size [image.NewRGBA] returns the transparent canvas of
    exactly that size. *)
Lemma NewRGBA_Size (sz : Size.t) :
  Size_ok sz ->
  exists s, NewRGBA (Size.Rect sz) = Some s /\ Rect s = Size.Rect sz /\ wf_RGBA s /\
            forall x y, RGBAAt s x y = color.zero.
Proof.
  intros (Hw & Hh & H1 & H2). unfold NewRGBA, pixelBufferLength.
  rewrite Size_Rect_Dx, Size_Rect_Dy by (unfold int_range; lia).
  rewrite mul3NonNeg_4 by lia.
  assert (Hnn : 0 <= 4 * Size.Width sz * Size.Height sz) by nia.
  destruct (Z.ltb_spec (4 * Size.Width sz * Size.Height sz) 0); [lia|].
  eexists. split; [reflexivity|]. split; [reflexivity|].
  split; [|intros; apply RGBAAt_replicate].
  unfold wf_RGBA, int_range. simpl. rewrite !Z.sub_0_r, length_replicate.
  replace (4 * Size.Width sz * Size.Height sz)
    with (Size.Width sz * Size.Height sz * 4) by lia.
  rewrite Z_div_mult by lia.
  repeat split; try lia.
Qed.

(** Every other size makes [image.NewRGBA] panic. *)
Lemma NewRGBA_panics (sz : Size.t) :
  int_range (Size.Width sz) -> int_range (Size.Height sz) ->
  ~ Size_ok sz -> NewRGBA (Size.Rect sz) = None.
Proof.
  intros Hw Hh Hno. unfold NewRGBA, pixelBufferLength.
  rewrite Size_Rect_Dx, Size_Rect_Dy by assumption.
  unfold mul3NonNeg, Size_ok, int_range in *.
  destruct (Z.ltb_spec (Size.Width sz) 0); [reflexivity|].
  destruct (Z.ltb_spec (Size.Height sz) 0); [reflexivity|]. simpl.
  destruct (Z.leb_spec 18446744073709551616 (4 * Size.Width sz)); [reflexivity|].
  destruct (Z.leb_spec 18446744073709551616 (4 * Size.Width sz * Size.Height sz));
    [reflexivity|].
  destruct (Z.leb_spec 9223372036854775808 (4 * Size.Width sz * Size.Height sz));
    [reflexivity|].
  exfalso. apply Hno. lia.
Qed.
End NewCanvas.

(** ** The canvas of [unpackTexture] *)

Section Sprite.
Import image.

Lemma sprite_Rect (t : Texture) (img : Image) :
  Size_ok (SourceSize t) ->
  exists s, unpackTexture_sprite t (Some img) = Some s /\
            Rect s = Size.Rect (SourceSize t) /\ wf_RGBA s.
Proof.
  intros Hok. unfold unpackTexture_sprite.
  destruct (NewRGBA_Size _ Hok) as (s0 & -> & Hr & Hwf & _).
  unfold draw.Draw.
  destruct (draw.clip _ _ _ _) as [r2 sp2].
  destruct (Rectangle_Empty r2).
  - exists s0. auto.
  - eexists. split; [reflexivity|].
    rewrite drawRows_Rect. split; [exact Hr|]. apply drawRows_wf, Hwf.
Qed.

(** The canvas in closed form: the pixel at [(px, py)] is the source pixel
    at the same offset from [frame]'s corner as [(px, py)] has from
    [spriteSourceSize]'s corner, when [(px, py)] lies in
    [spriteSourceSize] and in the canvas and that source pixel exists;
    every other pixel is transparent. *)
Lemma sprite_At (t : Texture) (img : Image) :
  Size_ok (SourceSize t) -> geometry_small t img ->
  exists s, unpackTexture_sprite t (Some img) = Some s /\
    Rect s = Size.Rect (SourceSize t) /\
    forall px py,
      RGBAAt s px py =
        if Point_In {| X := px; Y := py |} (Frame.Rect (SpriteSourceSize t))
           && Point_In {| X := px; Y := py |} (Size.Rect (SourceSize t))
           && Point_In {| X := Frame.X (Frame t) + (px - Frame.X (SpriteSourceSize t));
                          Y := Frame.Y (Frame t) + (py - Frame.Y (SpriteSourceSize t)) |}
                (Bounds img)
        then At img (Frame.X (Frame t) + (px - Frame.X (SpriteSourceSize t)))
                    (Frame.Y (Frame t) + (py - Frame.Y (SpriteSourceSize t)))
        else color.zero.
Proof.
  intros Hok (Hf & Hs & Hw & Hh & Hb). unfold unpackTexture_sprite.
  destruct (NewRGBA_Size _ Hok) as (s0 & -> & Hr & Hwf & Hz).
  unfold Frame_small, small, bounded in *.
  destruct Hf as (Hf1 & Hf2 & Hf3 & Hf4). destruct Hs as (Hs1 & Hs2 & Hs3 & Hs4).
  destruct (Draw_At s0 (Frame.Rect (SpriteSourceSize t)) img
              (Min (Frame.Rect (Frame t)))) as (out & Hd & Hro & _ & Hat).
  - exact Hwf.
  - rewrite Hr. unfold bounded_Rectangle, bounded_Point, bounded. simpl. lia.
  - unfold bounded_Rectangle, bounded_Point, bounded. simpl. unwrap. lia.
  - exact Hb.
  - unfold bounded_Point, bounded. simpl. lia.
  - exists out. split; [exact Hd|]. split; [congruence|].
    intros px py. rewrite Hat, Hr, Hz. reflexivity.
Qed.
End Sprite.

(** ** Claims about the extracted canvas *)

Section CanvasClaims.
Import image.

Lemma Point_In_true (p : Point) (r : Rectangle) :
  X (Min r) <= X p < X (Max r) -> Y (Min r) <= Y p < Y (Max r) -> Point_In p r = true.
Proof. intros. apply Point_In_spec. tauto. Qed.

Lemma crop_Some (img : Image) (fr : Frame.t) (i j : Z) :
  0 <= i < Frame.Width fr -> 0 <= j < Frame.Height fr ->
  Point_In {| X := Frame.X fr + i; Y := Frame.Y fr + j |} (Bounds img) = true ->
  crop img fr i j = Some (At img (Frame.X fr + i) (Frame.Y fr + j)).
Proof.
  intros Hi Hj Hin. unfold crop. rewrite Hin.
  destruct (Z.leb_spec 0 i); [|lia]. destruct (Z.ltb_spec i (Frame.Width fr)); [|lia].
  destruct (Z.leb_spec 0 j); [|lia]. destruct (Z.ltb_spec j (Frame.Height fr)); [|lia].
  reflexivity.
Qed.

Lemma crop_None (img : Image) (fr : Frame.t) (i j : Z) :
  ~ (0 <= i < Frame.Width fr /\ 0 <= j < Frame.Height fr) -> crop img fr i j = None.
Proof.
  intros H. unfold crop.
  destruct (Z.leb_spec 0 i); [|reflexivity].
  destruct (Z.ltb_spec i (Frame.Width fr)); [|reflexivity].
  destruct (Z.leb_spec 0 j); [|reflexivity].
  destruct (Z.ltb_spec j (Frame.Height fr)); [|reflexivity].
  lia.
Qed.
End CanvasClaims.

(** C1, as stated, fails: [tex_untrimmed_offset] has [trimmed = false], its
    frame lies within the sheet and its [spriteSourceSize] within its
    [sourceSize]; the crop of its frame starts with the red pixel, but the
    canvas is transparent at (0, 0) and holds the red pixel at (1, 0),
    where the crop has the green one. *)
Lemma untrimmed_offset_not_crop :
  Trimmed tex_untrimmed_offset = false /\
  Size_ok (SourceSize tex_untrimmed_offset) /\
  Frame_in_image (Frame tex_untrimmed_offset) sheet2x2 /\
  exists s,
    unpackTexture_sprite tex_untrimmed_offset (Some sheet2x2) = Some s /\
    image.Point_In {| image.X := 0; image.Y := 0 |} (image.Rect s) = true /\
    crop sheet2x2 (Frame tex_untrimmed_offset) 0 0 = Some red /\
    image.RGBAAt s 0 0 = color.zero /\
    crop sheet2x2 (Frame tex_untrimmed_offset) 1 0 = Some green /\
    image.RGBAAt s 1 0 = red /\
    crop sheet2x2 (Frame tex_untrimmed_offset) 0 0 <> Some (image.RGBAAt s 0 0).
Proof.
  split; [reflexivity|].
  split; [unfold Size_ok; simpl; lia|].
  split; [unfold Frame_in_image; simpl; lia|].
  eexists. split; [vm_compute; reflexivity|].
  repeat (split; [vm_compute; reflexivity|]).
  vm_compute. discriminate.
Qed.

(** C1, amended: when [spriteSourceSize] is the whole canvas and [frame]
    has the dimensions of [sourceSize] and lies in the sheet, the canvas
    has the dimensions of [sourceSize] and is, pixel for pixel, the crop of
    [frame]; the [trimmed] flag plays no part. *)
Theorem whole_canvas_sprite_is_crop (t : Texture) (img : image.Image) :
  Size_ok (SourceSize t) -> geometry_small t img ->
  Frame_in_image (Frame t) img ->
  Frame.X (SpriteSourceSize t) = 0 -> Frame.Y (SpriteSourceSize t) = 0 ->
  Frame.Width (SpriteSourceSize t) = Size.Width (SourceSize t) ->
  Frame.Height (SpriteSourceSize t) = Size.Height (SourceSize t) ->
  Frame.Width (Frame t) = Size.Width (SourceSize t) ->
  Frame.Height (Frame t) = Size.Height (SourceSize t) ->
  exists s,
    unpackTexture_sprite t (Some img) = Some s /\
    image.Rect s = Size.Rect (SourceSize t) /\
    image.Rectangle_Dx (image.Rect s) = Size.Width (SourceSize t) /\
    image.Rectangle_Dy (image.Rect s) = Size.Height (SourceSize t) /\
    forall i j,
      crop img (Frame t) i j =
        if image.Point_In {| image.X := i; image.Y := j |} (image.Rect s)
        then Some (image.RGBAAt s i j) else None.
Proof.
  intros Hok Hgeo Hfi Hsx Hsy Hsw Hsh Hfw Hfh.
  destruct (sprite_At t img Hok Hgeo) as (s & Hs & Hr & Hat).
  exists s. split; [exact Hs|]. split; [exact Hr|].
  destruct Hok as (Hw & Hh & H1 & H2).
  rewrite Hr. rewrite Size_Rect_Dx, Size_Rect_Dy by (unfold int_range; lia).
  split; [reflexivity|]. split; [reflexivity|].
  intros i j. rewrite Hat.
  destruct Hgeo as (_ & (_ & _ & Hs3 & Hs4) & _).
  unfold small in *. unfold Frame_in_image in Hfi.
  destruct (image.Point_In {| image.X := i; image.Y := j |} (Size.Rect (SourceSize t))) eqn:Hin.
  - apply Point_In_spec in Hin. simpl in Hin.
    rewrite Point_In_true; [|simpl; rewrite Hsx, Hsw; unwrap; lia
                            |simpl; rewrite Hsy, Hsh; unwrap; lia].
    rewrite Hsx, Hsy, !Z.sub_0_r. simpl.
    rewrite Point_In_true by (simpl; lia).
    apply crop_Some; [lia|lia|]. apply Point_In_true; simpl; lia.
  - apply crop_None. intros [Hi Hj].
    apply not_true_iff_false in Hin. apply Hin.
    apply Point_In_spec. simpl. lia.
Qed.

Lemma whole_canvas_sprite_is_crop_witness :
  exists s,
    unpackTexture_sprite tex_plain (Some sheet2x2) = Some s /\
    image.Rect s = Size.Rect (SourceSize tex_plain) /\
    image.Rectangle_Dx (image.Rect s) = Size.Width (SourceSize tex_plain) /\
    image.Rectangle_Dy (image.Rect s) = Size.Height (SourceSize tex_plain) /\
    forall i j,
      crop sheet2x2 (Frame tex_plain) i j =
        if image.Point_In {| image.X := i; image.Y := j |} (image.Rect s)
        then Some (image.RGBAAt s i j) else None.
Proof.
  apply (whole_canvas_sprite_is_crop tex_plain sheet2x2); try reflexivity.
  - unfold Size_ok. simpl. lia.
  - unfold geometry_small, Frame_small, small, bounded_Rectangle, bounded_Point, bounded.
    simpl. lia.
  - unfold Frame_in_image. simpl. lia.
Defined.

(** C2, as stated, fails: [tex_trimmed_wide] has [trimmed = true], its frame
    (one pixel) lies within the sheet and its [spriteSourceSize] (two
    pixels) within its [sourceSize]; the canvas pixel (1, 0) lies inside
    [spriteSourceSize] and holds the green pixel of the sheet, which lies
    outside [frame]: the crop of [frame] has no pixel there. *)
Lemma trimmed_wide_not_crop :
  Trimmed tex_trimmed_wide = true /\
  Size_ok (SourceSize tex_trimmed_wide) /\
  Frame_in_image (Frame tex_trimmed_wide) sheet2x2 /\
  exists s,
    unpackTexture_sprite tex_trimmed_wide (Some sheet2x2) = Some s /\
    image.Point_In {| image.X := 1; image.Y := 0 |} (image.Rect s) = true /\
    image.Point_In {| image.X := 1; image.Y := 0 |}
      (Frame.Rect (SpriteSourceSize tex_trimmed_wide)) = true /\
    image.RGBAAt s 1 0 = green /\
    image.At sheet2x2 1 0 = green /\
    image.Point_In {| image.X := 1; image.Y := 0 |}
      (Frame.Rect (Frame tex_trimmed_wide)) = false /\
    crop sheet2x2 (Frame tex_trimmed_wide) 1 0 = None /\
    crop sheet2x2 (Frame tex_trimmed_wide) 1 0 <> Some (image.RGBAAt s 1 0).
Proof.
  split; [reflexivity|].
  split; [unfold Size_ok; simpl; lia|].
  split; [unfold Frame_in_image; simpl; lia|].
  eexists. split; [vm_compute; reflexivity|].
  repeat (split; [vm_compute; reflexivity|]).
  vm_compute. discriminate.
Qed.

(** C2, amended: for every texture, trimmed or not, whose frame lies in the
    sheet and whose [spriteSourceSize] is no wider and no taller than its
    frame, the canvas has the size of [sourceSize], is transparent at every
    pixel outside [spriteSourceSize], and at every pixel inside it holds
    the pixel of the crop of [frame] at the same offset. *)
Theorem trimmed_sprite_spec (t : Texture) (img : image.Image) :
  Size_ok (SourceSize t) -> geometry_small t img ->
  Frame_in_image (Frame t) img ->
  Frame.Width (SpriteSourceSize t) <= Frame.Width (Frame t) ->
  Frame.Height (SpriteSourceSize t) <= Frame.Height (Frame t) ->
  exists s,
    unpackTexture_sprite t (Some img) = Some s /\
    image.Rect s = Size.Rect (SourceSize t) /\
    forall x y,
      image.Point_In {| image.X := x; image.Y := y |} (image.Rect s) = true ->
      (image.Point_In {| image.X := x; image.Y := y |}
         (Frame.Rect (SpriteSourceSize t)) = false ->
       image.RGBAAt s x y = color.zero) /\
      (image.Point_In {| image.X := x; image.Y := y |}
         (Frame.Rect (SpriteSourceSize t)) = true ->
       crop img (Frame t) (x - Frame.X (SpriteSourceSize t))
                          (y - Frame.Y (SpriteSourceSize t))
       = Some (image.RGBAAt s x y)).
Proof.
  intros Hok Hgeo Hfi Hw Hh.
  destruct (sprite_At t img Hok Hgeo) as (s & Hs & Hr & Hat).
  exists s. split; [exact Hs|]. split; [exact Hr|].
  intros x y Hin. rewrite Hat. rewrite Hr in Hin.
  destruct Hgeo as (_ & (Hs1 & Hs2 & Hs3 & Hs4) & _).
  unfold small in *. unfold Frame_in_image in Hfi.
  split; intros Hss; rewrite Hss, Hin; simpl; [reflexivity|].
  apply Point_In_spec in Hss. simpl in Hss.
  assert (Ex : Frame.X (SpriteSourceSize t) +' Frame.Width (SpriteSourceSize t)
               = Frame.X (SpriteSourceSize t) + Frame.Width (SpriteSourceSize t))
    by (unwrap; reflexivity).
  assert (Ey : Frame.Y (SpriteSourceSize t) +' Frame.Height (SpriteSourceSize t)
               = Frame.Y (SpriteSourceSize t) + Frame.Height (SpriteSourceSize t))
    by (unwrap; reflexivity).
  rewrite Ex, Ey in Hss.
  rewrite Point_In_true by (simpl; lia).
  symmetry. rewrite crop_Some; [reflexivity|lia|lia|].
  apply Point_In_true; simpl; lia.
Qed.

Lemma trimmed_sprite_spec_witness :
  exists s,
    unpackTexture_sprite tex_trimmed (Some sheet2x2) = Some s /\
    image.Rect s = Size.Rect (SourceSize tex_trimmed) /\
    forall x y,
      image.Point_In {| image.X := x; image.Y := y |} (image.Rect s) = true ->
      (image.Point_In {| image.X := x; image.Y := y |}
         (Frame.Rect (SpriteSourceSize tex_trimmed)) = false ->
       image.RGBAAt s x y = color.zero) /\
      (image.Point_In {| image.X := x; image.Y := y |}
         (Frame.Rect (SpriteSourceSize tex_trimmed)) = true ->
       crop sheet2x2 (Frame tex_trimmed) (x - Frame.X (SpriteSourceSize tex_trimmed))
                                         (y - Frame.Y (SpriteSourceSize tex_trimmed))
       = Some (image.RGBAAt s x y)).
Proof.
  apply (trimmed_sprite_spec tex_trimmed sheet2x2).
  - unfold Size_ok. simpl. lia.
  - unfold geometry_small, Frame_small, small, bounded_Rectangle, bounded_Point, bounded.
    simpl. lia.
  - unfold Frame_in_image. simpl. lia.
  - simpl. lia.
  - simpl. lia.
Defined.

(** C3, as stated, fails: [tex_rotated] has [rotated = true] and an upright
    size of 2x1, so its packed region is the left column of the sheet (red
    above blue).  The canvas pixel (1, 0) should be blue (quarter turn one
    way) or red (the other way); the canvas holds green there, the sheet
    pixel at (1, 0), which is outside the packed column. *)
Lemma rotated_not_accounted :
  Rotated tex_rotated = true /\
  exists s,
    unpackTexture_sprite tex_rotated (Some sheet2x2) = Some s /\
    image.RGBAAt s 1 0 = green /\
    image.At sheet2x2 1 0 = green /\
    image.At sheet2x2 (image.X (rotated_source_cw (Frame tex_rotated) 1 0))
                      (image.Y (rotated_source_cw (Frame tex_rotated) 1 0)) = blue /\
    image.At sheet2x2 (image.X (rotated_source_ccw (Frame tex_rotated) 1 0))
                      (image.Y (rotated_source_ccw (Frame tex_rotated) 1 0)) = red /\
    image.RGBAAt s 1 0 <>
      image.At sheet2x2 (image.X (rotated_source_cw (Frame tex_rotated) 1 0))
                        (image.Y (rotated_source_cw (Frame tex_rotated) 1 0)) /\
    image.RGBAAt s 1 0 <>
      image.At sheet2x2 (image.X (rotated_source_ccw (Frame tex_rotated) 1 0))
                        (image.Y (rotated_source_ccw (Frame tex_rotated) 1 0)).
Proof.
  split; [reflexivity|].
  eexists. split; [vm_compute; reflexivity|].
  repeat (split; [vm_compute; reflexivity|]).
  split; vm_compute; discriminate.
Qed.

(** C3, amended: the [rotated] flag is not consulted.  For a rotated
    texture the canvas is the one built for the same texture with
    [rotated = false]: the pixel at a point of [spriteSourceSize] is the
    sheet pixel at the same offset from [frame]'s corner, unrotated, and
    [frame]'s width and height are read as given. *)
Theorem rotated_copied_upright (t : Texture) (img : image.Image) :
  Rotated t = true ->
  Size_ok (SourceSize t) -> geometry_small t img ->
  exists s,
    unpackTexture_sprite t (Some img) = Some s /\
    unpackTexture_sprite (set_Rotated false t) (Some img) = Some s /\
    forall px py,
      image.RGBAAt s px py =
        if image.Point_In {| image.X := px; image.Y := py |} (Frame.Rect (SpriteSourceSize t))
           && image.Point_In {| image.X := px; image.Y := py |} (Size.Rect (SourceSize t))
           && image.Point_In
                {| image.X := Frame.X (Frame t) + (px - Frame.X (SpriteSourceSize t));
                   image.Y := Frame.Y (Frame t) + (py - Frame.Y (SpriteSourceSize t)) |}
                (image.Bounds img)
        then image.At img (Frame.X (Frame t) + (px - Frame.X (SpriteSourceSize t)))
                          (Frame.Y (Frame t) + (py - Frame.Y (SpriteSourceSize t)))
        else color.zero.
Proof.
  intros _ Hok Hgeo.
  destruct (sprite_At t img Hok Hgeo) as (s & Hs & _ & Hat).
  exists s. split; [exact Hs|]. split; [exact Hs|]. exact Hat.
Qed.

Lemma rotated_copied_upright_witness :
  exists s,
    unpackTexture_sprite tex_rotated (Some sheet2x2) = Some s /\
    unpackTexture_sprite (set_Rotated false tex_rotated) (Some sheet2x2) = Some s /\
    forall px py,
      image.RGBAAt s px py =
        if image.Point_In {| image.X := px; image.Y := py |}
             (Frame.Rect (SpriteSourceSize tex_rotated))
           && image.Point_In {| image.X := px; image.Y := py |}
                (Size.Rect (SourceSize tex_rotated))
           && image.Point_In
                {| image.X := Frame.X (Frame tex_rotated)
                              + (px - Frame.X (SpriteSourceSize tex_rotated));
                   image.Y := Frame.Y (Frame tex_rotated)
                              + (py - Frame.Y (SpriteSourceSize tex_rotated)) |}
                (image.Bounds sheet2x2)
        then image.At sheet2x2
               (Frame.X (Frame tex_rotated) + (px - Frame.X (SpriteSourceSize tex_rotated)))
               (Frame.Y (Frame tex_rotated) + (py - Frame.Y (SpriteSourceSize tex_rotated)))
        else color.zero.
Proof.
  apply (rotated_copied_upright tex_rotated sheet2x2).
  - reflexivity.
  - unfold Size_ok. simpl. lia.
  - unfold geometry_small, Frame_small, small, bounded_Rectangle, bounded_Point, bounded.
    simpl. lia.
Defined.

(** ** [unpackTexture] as a whole *)

Lemma png_Encode_spec (env : Env) (path : string) (t : Texture) (s : image.RGBA) :
  Size_ok (SourceSize t) -> image.Rect s = Size.Rect (SourceSize t) ->
  png_Encode env path s =
    if (Size.Width (SourceSize t) <=? 0) || (Size.Height (SourceSize t) <=? 0)
       || (4294967296 <=? Size.Width (SourceSize t))
       || (4294967296 <=? Size.Height (SourceSize t))
    then Some (png_FormatError (Size.Width (SourceSize t)) (Size.Height (SourceSize t)))
    else File_Write env path.
Proof.
  intros (Hw & Hh & H1 & H2) Hr. unfold png_Encode. rewrite Hr.
  rewrite Size_Rect_Dx, Size_Rect_Dy by (unfold int_range; lia). reflexivity.
Qed.

(** What [unpackTexture] does when every file operation succeeds. *)
Lemma unpackTexture_io_ok (env : Env) (u : Unpacker) (t : Texture) (img : image.Image)
    (w : World) (s : image.RGBA) :
  Size_ok (SourceSize t) -> unpackTexture_sprite t (Some img) = Some s ->
  image.Rect s = Size.Rect (SourceSize t) ->
  io_ok env u t ->
  snd (unpackTexture env u t (Some img) w) = Return None /\
  files (fst (unpackTexture env u t (Some img) w)) =
    <[outputPath env u t := Some s]> (files w).
Proof.
  intros Hok Hs Hr (Hmk & Hcr & (Hpw & Hph) & Hwr & Hcl).
  unfold unpackTexture. rewrite Hs.
  rewrite (png_Encode_spec env _ t s Hok Hr), Hcr, Hwr, Hcl.
  destruct (Z.leb_spec (Size.Width (SourceSize t)) 0); [lia|].
  destruct (Z.leb_spec (Size.Height (SourceSize t)) 0); [lia|].
  destruct (Z.leb_spec 4294967296 (Size.Width (SourceSize t))); [lia|].
  destruct (Z.leb_spec 4294967296 (Size.Height (SourceSize t))); [lia|].
  simpl.
  destruct (strings_Contains (FileName t) "/").
  - rewrite Hmk by reflexivity. simpl. split; [reflexivity|].
    apply insert_insert_eq.
  - simpl. split; [reflexivity|]. apply insert_insert_eq.
Qed.

(** The call never panics on an accepted size and a decoded image, and it
    returns nil exactly when every file operation succeeds. *)
Lemma unpackTexture_Return (env : Env) (u : Unpacker) (t : Texture) (img : image.Image)
    (w : World) :
  Size_ok (SourceSize t) ->
  exists r, snd (unpackTexture env u t (Some img) w) = Return r /\
            (r = None <-> io_ok env u t).
Proof.
  intros Hok. destruct (sprite_Rect t img Hok) as (s & Hs & Hr & _).
  unfold unpackTexture, io_ok. rewrite Hs.
  rewrite (png_Encode_spec env _ t s Hok Hr).
  destruct (strings_Contains (FileName t) "/") eqn:Hc.
  - destruct (os_MkdirAll env (subDir env u t)) eqn:Hm.
    { eexists. split; [reflexivity|]. split; [discriminate|].
      intros (Hmk & _). specialize (Hmk eq_refl). discriminate. }
    destruct (os_Create env (outputPath env u t)) eqn:Hcr.
    { eexists. split; [reflexivity|]. split; [discriminate|].
      intros (_ & Hx & _). discriminate. }
    destruct (Z.leb_spec (Size.Width (SourceSize t)) 0);
      [eexists; split; [reflexivity|]; split; [discriminate|]; intros (_ & _ & Hx & _); lia|].
    destruct (Z.leb_spec (Size.Height (SourceSize t)) 0);
      [eexists; split; [reflexivity|]; split; [discriminate|]; intros (_ & _ & Hx & _); lia|].
    destruct (Z.leb_spec 4294967296 (Size.Width (SourceSize t)));
      [eexists; split; [reflexivity|]; split; [discriminate|]; intros (_ & _ & Hx & _); lia|].
    destruct (Z.leb_spec 4294967296 (Size.Height (SourceSize t)));
      [eexists; split; [reflexivity|]; split; [discriminate|]; intros (_ & _ & Hx & _); lia|].
    simpl.
    destruct (File_Write env (outputPath env u t)) eqn:Hwr.
    { eexists. split; [reflexivity|]. split; [discriminate|].
      intros (_ & _ & _ & Hx & _). discriminate. }
    destruct (File_Close env (outputPath env u t)) eqn:Hcl.
    { eexists. split; [reflexivity|]. split; [discriminate|].
      intros (_ & _ & _ & _ & Hx). discriminate. }
    eexists. split; [reflexivity|]. split; [|reflexivity].
    intros _. repeat split; (reflexivity || lia).
  - destruct (os_Create env (outputPath env u t)) eqn:Hcr.
    { eexists. split; [reflexivity|]. split; [discriminate|].
      intros (_ & Hx & _). discriminate. }
    destruct (Z.leb_spec (Size.Width (SourceSize t)) 0);
      [eexists; split; [reflexivity|]; split; [discriminate|]; intros (_ & _ & Hx & _); lia|].
    destruct (Z.leb_spec (Size.Height (SourceSize t)) 0);
      [eexists; split; [reflexivity|]; split; [discriminate|]; intros (_ & _ & Hx & _); lia|].
    destruct (Z.leb_spec 4294967296 (Size.Width (SourceSize t)));
      [eexists; split; [reflexivity|]; split; [discriminate|]; intros (_ & _ & Hx & _); lia|].
    destruct (Z.leb_spec 4294967296 (Size.Height (SourceSize t)));
      [eexists; split; [reflexivity|]; split; [discriminate|]; intros (_ & _ & Hx & _); lia|].
    simpl.
    destruct (File_Write env (outputPath env u t)) eqn:Hwr.
    { eexists. split; [reflexivity|]. split; [discriminate|].
      intros (_ & _ & _ & Hx & _). discriminate. }
    destruct (File_Close env (outputPath env u t)) eqn:Hcl.
    { eexists. split; [reflexivity|]. split; [discriminate|].
      intros (_ & _ & _ & _ & Hx). discriminate. }
    eexists. split; [reflexivity|]. split; [|reflexivity].
    intros _. repeat split; (discriminate || reflexivity || lia).
Qed.

(** C4, as stated, fails: the frame of [tex_outside] lies wholly outside the
    2x2 sheet, and [unpackTexture] returns nil, having written a file that
    holds the untouched transparent canvas. *)
Lemma outside_frame_no_error :
  ~ Frame_in_image (Frame tex_outside) sheet2x2 /\
  snd (unpackTexture env_ok (mkUnpacker [] 1) tex_outside (Some sheet2x2) world0)
    = Return None /\
  exists s,
    files (fst (unpackTexture env_ok (mkUnpacker [] 1) tex_outside (Some sheet2x2) world0))
      !! "out/outside.png" = Some (Some s) /\
    image.RGBAAt s 0 0 = color.zero.
Proof.
  split; [unfold Frame_in_image; simpl; lia|].
  split; [vm_compute; reflexivity|].
  eexists. split; [vm_compute; reflexivity|]. vm_compute. reflexivity.
Qed.

(** C4, amended: on a decoded image and a size [image.NewRGBA] accepts,
    [unpackTexture] returns an error exactly when a file operation fails
    (making the nested directory, creating the file, encoding, whose size
    check refuses an empty canvas and a side of 2^32 or more, or closing
    the file); where [frame] and [spriteSourceSize] lie plays no part, the
    copy being clipped.  A nil image is a panic, not an error. *)
Theorem unpackTexture_error_iff (env : Env) (u : Unpacker) (t : Texture)
    (img : image.Image) (w : World) :
  Size_ok (SourceSize t) ->
  unpackTexture env u t None w = (w, Panic) /\
  exists r, snd (unpackTexture env u t (Some img) w) = Return r /\
            ((exists e, r = Some e) <-> ~ io_ok env u t).
Proof.
  intros Hok. split.
  - unfold unpackTexture, unpackTexture_sprite.
    destruct (NewRGBA_Size _ Hok) as (s0 & -> & _). reflexivity.
  - destruct (unpackTexture_Return env u t img w Hok) as (r & Hr & Hiff).
    exists r. split; [exact Hr|]. split.
    + intros [e ->] Hio. apply Hiff in Hio. discriminate.
    + intros Hno. destruct r as [e|]; [eauto|]. exfalso. apply Hno, Hiff. reflexivity.
Qed.

Lemma unpackTexture_error_iff_witness :
  unpackTexture env_ok (mkUnpacker [] 1) tex_outside None world0 = (world0, Panic) /\
  exists r,
    snd (unpackTexture env_ok (mkUnpacker [] 1) tex_outside (Some sheet2x2) world0) = Return r /\
    ((exists e, r = Some e) <-> ~ io_ok env_ok (mkUnpacker [] 1) tex_outside).
Proof.
  apply (unpackTexture_error_iff env_ok (mkUnpacker [] 1) tex_outside sheet2x2 world0).
  unfold Size_ok. simpl. lia.
Defined.

(** C9: whatever [frame], [spriteSourceSize], [rotated] and [trimmed] are,
    and wherever the regions lie with respect to the sheet, the canvas that
    [unpackTexture] builds has exactly the dimensions of [sourceSize]; the
    call does not panic, and when the file operations succeed it returns
    nil and the file at the output path holds that canvas. *)
Theorem canvas_has_sourceSize (env : Env) (u : Unpacker) (t : Texture)
    (img : image.Image) (w : World) :
  Size_ok (SourceSize t) ->
  exists s,
    unpackTexture_sprite t (Some img) = Some s /\
    image.Rect s = {| image.Min := {| image.X := 0; image.Y := 0 |};
                      image.Max := {| image.X := Size.Width (SourceSize t);
                                      image.Y := Size.Height (SourceSize t) |} |} /\
    image.Rectangle_Dx (image.Rect s) = Size.Width (SourceSize t) /\
    image.Rectangle_Dy (image.Rect s) = Size.Height (SourceSize t) /\
    length (image.Pix s)
      = Z.to_nat (Size.Width (SourceSize t) * Size.Height (SourceSize t)) /\
    snd (unpackTexture env u t (Some img) w) <> Panic /\
    (io_ok env u t ->
     snd (unpackTexture env u t (Some img) w) = Return None /\
     files (fst (unpackTexture env u t (Some img) w)) !! outputPath env u t
       = Some (Some s)).
Proof.
  intros Hok. destruct (sprite_Rect t img Hok) as (s & Hs & Hr & Hwf).
  exists s. split; [exact Hs|]. split; [exact Hr|].
  pose proof Hok as (Hw & Hh & H1 & H2).
  rewrite Hr, Size_Rect_Dx, Size_Rect_Dy by (unfold int_range; lia).
  split; [reflexivity|]. split; [reflexivity|]. split.
  - destruct Hwf as (_ & _ & _ & _ & _ & _ & _ & _ & Hl).
    rewrite Hl, Hr. simpl. rewrite !Z.sub_0_r. reflexivity.
  - split.
    + destruct (unpackTexture_Return env u t img w Hok) as (r & E & _).
      rewrite E. discriminate.
    + intros Hio.
      destruct (unpackTexture_io_ok env u t img w s Hok Hs Hr Hio) as [E1 E2].
      split; [exact E1|]. rewrite E2. apply lookup_insert_eq.
Qed.

Lemma canvas_has_sourceSize_witness :
  exists s,
    unpackTexture_sprite tex_outside (Some sheet2x2) = Some s /\
    image.Rect s = {| image.Min := {| image.X := 0; image.Y := 0 |};
                      image.Max := {| image.X := Size.Width (SourceSize tex_outside);
                                      image.Y := Size.Height (SourceSize tex_outside) |} |} /\
    image.Rectangle_Dx (image.Rect s) = Size.Width (SourceSize tex_outside) /\
    image.Rectangle_Dy (image.Rect s) = Size.Height (SourceSize tex_outside) /\
    length (image.Pix s)
      = Z.to_nat (Size.Width (SourceSize tex_outside) * Size.Height (SourceSize tex_outside)) /\
    snd (unpackTexture env_ok (mkUnpacker [] 1) tex_outside (Some sheet2x2) world0) <> Panic /\
    (io_ok env_ok (mkUnpacker [] 1) tex_outside ->
     snd (unpackTexture env_ok (mkUnpacker [] 1) tex_outside (Some sheet2x2) world0)
       = Return None /\
     files (fst (unpackTexture env_ok (mkUnpacker [] 1) tex_outside (Some sheet2x2) world0))
       !! outputPath env_ok (mkUnpacker [] 1) tex_outside
       = Some (Some s)).
Proof.
  apply (canvas_has_sourceSize env_ok (mkUnpacker [] 1) tex_outside sheet2x2 world0).
  unfold Size_ok. simpl. lia.
Defined.

(** C10: [trimmed] has no influence.  Two textures that agree on [frame],
    [spriteSourceSize] and [sourceSize] yield the same canvas from the same
    image; if they also agree on the file name, so on everything but
    [trimmed] and [rotated], the whole of [unpackTexture] behaves the same:
    same outcome, same files. *)
Theorem trimmed_no_influence (env : Env) (u : Unpacker) (t1 t2 : Texture)
    (img : option image.Image) (w : World) :
  Frame t1 = Frame t2 ->
  SpriteSourceSize t1 = SpriteSourceSize t2 ->
  SourceSize t1 = SourceSize t2 ->
  unpackTexture_sprite t1 img = unpackTexture_sprite t2 img /\
  (FileName t1 = FileName t2 ->
   unpackTexture env u t1 img w = unpackTexture env u t2 img w).
Proof.
  intros Hf Hs Hz.
  assert (E : unpackTexture_sprite t1 img = unpackTexture_sprite t2 img).
  { unfold unpackTexture_sprite. rewrite Hf, Hs, Hz. reflexivity. }
  split; [exact E|].
  intros Hn. unfold unpackTexture, subDir, outputPath. rewrite E, Hn. reflexivity.
Qed.

Lemma trimmed_no_influence_witness :
  unpackTexture_sprite tex_trimmed (Some sheet2x2)
    = unpackTexture_sprite (set_Trimmed false tex_trimmed) (Some sheet2x2) /\
  (FileName tex_trimmed = FileName (set_Trimmed false tex_trimmed) ->
   unpackTexture env_ok (mkUnpacker [] 1) tex_trimmed (Some sheet2x2) world0
     = unpackTexture env_ok (mkUnpacker [] 1) (set_Trimmed false tex_trimmed)
         (Some sheet2x2) world0).
Proof.
  apply (trimmed_no_influence env_ok (mkUnpacker [] 1) tex_trimmed
           (set_Trimmed false tex_trimmed) (Some sheet2x2) world0); reflexivity.
Defined.

(** ** Schedules *)

Section Exec.
Context {S C : Type} (step : C -> S -> option S).

(** A property kept by every move holds along every schedule. *)
Lemma exec_invariant (I : S -> Prop) :
  (forall c s s', I s -> step c s = Some s' -> I s') ->
  forall cs s s', I s -> exec step cs s = Some s' -> I s'.
Proof.
  intros Hstep. induction cs as [|c cs IH]; intros s s' Hi He; simpl in He.
  - congruence.
  - destruct (step c s) as [s1|] eqn:E; [|discriminate].
    eapply IH; [|exact He]. eapply Hstep; eauto.
Qed.

(** If some move is enabled in every state that is not final, and every
    move lowers a measure, a final state can be reached. *)
Lemma exec_reaches_final (I final : S -> Prop) (mu : S -> nat) :
  (forall c s s', I s -> step c s = Some s' -> I s') ->
  (forall s, I s -> final s \/ exists c s', step c s = Some s') ->
  (forall c s s', I s -> step c s = Some s' -> (mu s' < mu s)%nat) ->
  forall s, I s -> exists cs s', exec step cs s = Some s' /\ final s'.
Proof.
  intros Hinv Hprog Hdec s.
  remember (mu s) as n eqn:En. revert s En.
  induction n as [n IH] using lt_wf_ind. intros s En Hi.
  destruct (Hprog s Hi) as [Hf|(c & s1 & Hs)].
  - exists [], s. split; [reflexivity|exact Hf].
  - destruct (IH (mu s1)) with (s := s1) as (cs & s' & He & Hf);
      [subst n; eapply Hdec; eauto|reflexivity|eapply Hinv; eauto|].
    exists (c :: cs), s'. split; [|exact Hf]. simpl. rewrite Hs. exact He.
Qed.
End Exec.

(** ** Counting and pools *)

Lemma count_app {A : Type} (f : A -> bool) (l1 l2 : list A) :
  count f (l1 ++ l2) = (count f l1 + count f l2)%nat.
Proof.
  induction l1 as [|x l1 IH]; simpl; [reflexivity|].
  rewrite IH. destruct (f x); reflexivity.
Qed.

Lemma count_Permutation {A : Type} (f : A -> bool) (l1 l2 : list A) :
  Permutation l1 l2 -> count f l1 = count f l2.
Proof.
  induction 1 as [|x l1 l2 _ IH|x y l|l1 l2 l3 _ IH1 _ IH2]; simpl.
  - reflexivity.
  - rewrite IH. reflexivity.
  - destruct (f x), (f y); reflexivity.
  - congruence.
Qed.

Lemma unpacked_app (h1 h2 : list Event) :
  unpacked (h1 ++ h2) = unpacked h1 ++ unpacked h2.
Proof.
  induction h1 as [|e h1 IH]; simpl; [reflexivity|].
  destruct e; simpl; rewrite IH; reflexivity.
Qed.

Lemma busy_insert (ws : list WorkerState) (k : nat) (x y : WorkerState) :
  ws !! k = Some x ->
  Permutation (busy (<[k := y]> ws) ++ busy_of x) (busy ws ++ busy_of y).
Proof.
  revert k. induction ws as [|w ws IH]; intros k Hk; [discriminate|].
  destruct k as [|k]; simpl in *.
  - injection Hk as ->.
    destruct x as [|tx|], y as [|ty|]; simpl; rewrite ?app_nil_r; try reflexivity.
    + apply Permutation_cons_append.
    + symmetry. apply Permutation_cons_append.
    + rewrite <- !Permutation_cons_append. apply perm_swap.
    + symmetry. apply Permutation_cons_append.
    + apply Permutation_cons_append.
  - specialize (IH k Hk). destruct w; simpl; try exact IH.
    apply perm_skip. exact IH.
Qed.

Lemma count_Exited_insert (ws : list WorkerState) (k : nat) (x y : WorkerState) :
  ws !! k = Some x ->
  (count is_Exited (<[k := y]> ws) + (if is_Exited x then 1 else 0)
   = count is_Exited ws + (if is_Exited y then 1 else 0))%nat.
Proof.
  revert k. induction ws as [|w ws IH]; intros k Hk; [discriminate|].
  destruct k as [|k]; simpl in *.
  - injection Hk as ->. destruct (is_Exited x), (is_Exited y); lia.
  - specialize (IH k Hk). destruct (is_Exited w); lia.
Qed.

Lemma all_Exited (ws : list WorkerState) :
  forallb is_Exited ws = true -> busy ws = [] /\ count is_Exited ws = length ws.
Proof.
  induction ws as [|w ws IH]; simpl; [auto|].
  destruct w; simpl; try discriminate.
  intros H. destruct (IH H) as [-> ->]. auto.
Qed.

Lemma busy_replicate_Ready (n : nat) :
  busy (replicate n Ready) = [] /\ count is_Exited (replicate n Ready) = O.
Proof. induction n as [|n [IH1 IH2]]; simpl; auto. Qed.

Lemma busy_lookup (ws : list WorkerState) (k : nat) (tex : Texture) :
  ws !! k = Some (Busy tex) -> tex ∈ busy ws.
Proof.
  revert k. induction ws as [|w ws IH]; intros k Hk; [discriminate|].
  destruct k as [|k]; simpl in *.
  - injection Hk as ->. simpl. apply list_elem_of_here.
  - specialize (IH k Hk). destruct w; simpl; try exact IH.
    apply list_elem_of_further, IH.
Qed.

(** Whether and how [unpackTexture] returns does not depend on the files
    written before. *)
Lemma unpackTexture_outcome_indep (env : Env) (u : Unpacker) (t : Texture)
    (img : option image.Image) (w1 w2 : World) :
  snd (unpackTexture env u t img w1) = snd (unpackTexture env u t img w2).
Proof.
  unfold unpackTexture.
  destruct (unpackTexture_sprite t img); [|reflexivity].
  destruct (strings_Contains _ _); [destruct (os_MkdirAll env _)|]; simpl;
    try reflexivity;
    destruct (os_Create env _); simpl; try reflexivity;
    destruct (png_Encode env _ _); simpl; try reflexivity;
    destruct (File_Close env _); reflexivity.
Qed.

(** [unpackTexture] touches no file but its own. *)
Lemma unpackTexture_frame (env : Env) (u : Unpacker) (t : Texture)
    (img : option image.Image) (w : World) (q : string) :
  q <> outputPath env u t ->
  files (fst (unpackTexture env u t img w)) !! q = files w !! q.
Proof.
  intros Hq. unfold unpackTexture.
  destruct (unpackTexture_sprite t img); [|reflexivity].
  destruct (strings_Contains _ _); [destruct (os_MkdirAll env _)|]; simpl;
    try reflexivity;
    destruct (os_Create env _); simpl; try reflexivity;
    destruct (png_Encode env _ _); simpl;
    try (destruct (File_Close env _); simpl);
    rewrite ?lookup_insert_ne by congruence; reflexivity.
Qed.

(** ** One sheet's pipeline *)

Section SheetPipeline.
Variables (env : Env) (u : Unpacker) (sheet : Sheet).


Lemma step_move (c : SheetChoice) (s s' : World * SheetRun) :
  unpackSheet_step env u sheet c s = Some s' -> sheet_move env u sheet s s'.
Proof.
  destruct s as [w [s h]]. unfold unpackSheet_step. simpl.
  destruct c as [|k|], s as [|img jobs ws res|ret|]; try discriminate.
  - destruct (os_Open env _) eqn:Ho.
    + intros [= <-]. apply move_open_fail; assumption.
    + destruct (image_Decode env _) eqn:Hd; intros [= <-].
      * apply move_decode_fail; assumption.
      * apply move_start; assumption.
  - destruct (ws !! k) as [[|tex|]|] eqn:Hk; try discriminate.
    + destruct jobs as [|tex jobs]; intros [= <-].
      * apply move_closed; assumption.
      * apply move_receive; assumption.
    + destruct (snd (unpackTexture env u tex (Some img) w)) as [|[err|]] eqn:Ho;
        intros [= <-].
      * eapply move_panic; eassumption.
      * eapply move_error; eassumption.
      * eapply move_success; eassumption.
  - destruct (forallb is_Exited ws) eqn:Hf; [|discriminate].
    intros [= <-]. apply move_wait; assumption.
Qed.

(** Nothing moves once the pipeline has returned or panicked. *)
Lemma step_SDone (c : SheetChoice) (w : World) (ret : option error) (h : list Event) :
  unpackSheet_step env u sheet c (w, {| st := SDone ret; hist := h |}) = None.
Proof. destruct c; reflexivity. Qed.

Lemma exec_SDone (cs : list SheetChoice) (w : World) (ret : option error) (h : list Event)
    (s' : World * SheetRun) :
  exec (unpackSheet_step env u sheet) cs (w, {| st := SDone ret; hist := h |}) = Some s' ->
  cs = [] /\ s' = (w, {| st := SDone ret; hist := h |}).
Proof.
  destruct cs as [|c cs]; cbn [exec].
  - intros [= <-]. auto.
  - rewrite step_SDone. discriminate.
Qed.

Lemma started_inv_move (w0 : World) (s s' : World * SheetRun) :
  started_inv env u sheet w0 s -> sheet_move env u sheet s s' ->
  started_inv env u sheet w0 s'.
Proof.
  intros Hi Hm. unfold started_inv in *.
  inversion Hm; subst; simpl in *; try contradiction.
  - destruct Hi as (Ho & Hd & h' & -> & Hf). eauto.
  - destruct Hi as (Ho & Hd & h' & -> & Hf). eauto.
  - destruct Hi as (Ho & Hd & h' & -> & Hf). split; [exact Ho|].
    exists img, (h' ++ [EvUnpack tex img Panic]). split; [exact Hd|]. split; [reflexivity|].
    apply Forall_app. split; [exact Hf|]. repeat constructor. red. eauto.
  - destruct Hi as (Ho & Hd & h' & -> & Hf). split; [exact Ho|]. split; [exact Hd|].
    exists (h' ++ [EvUnpack tex img (Return (Some err))]). split; [reflexivity|].
    apply Forall_app. split; [exact Hf|]. repeat constructor. red. eauto.
  - destruct Hi as (Ho & Hd & h' & -> & Hf). split; [exact Ho|]. split; [exact Hd|].
    exists (h' ++ [EvUnpack tex img (Return None)]). split; [reflexivity|].
    apply Forall_app. split; [exact Hf|]. repeat constructor. red. eauto.
  - destruct Hi as (Ho & Hd & h' & -> & Hf). right. right. split; [exact Ho|]. eauto.
Qed.

Lemma started_inv_first (c : SheetChoice) (w0 : World) (s' : World * SheetRun) :
  unpackSheet_step env u sheet c (w0, run0) = Some s' ->
  c = CStart /\ started_inv env u sheet w0 s'.
Proof.
  intros Hs. assert (c = CStart) as -> by (destruct c; [reflexivity|discriminate..]).
  split; [reflexivity|].
  apply step_move in Hs. unfold started_inv.
  inversion Hs; subst; simpl.
  - left. eauto.
  - right. left. eauto 10.
  - split; [assumption|]. split; [assumption|]. exists []. split; [reflexivity|constructor].
Qed.

Lemma pool_inv_move (s s' : World * SheetRun) :
  pool_inv env u sheet (snd s) -> sheet_move env u sheet s s' ->
  pool_inv env u sheet (snd s').
Proof.
  intros Hi Hm. unfold pool_inv in *.
  inversion Hm; subst; simpl in *;
    try match goal with H : _ !! _ = Some _ |- _ => rename H into Hk end;
    try match goal with H : snd _ = _ |- _ => rename H into Hout end;
    try match goal with H : forallb _ _ = true |- _ => rename H into Hall end.
  - (* the open fails *) intros img Ho. congruence.
  - (* the decode fails *) intros img _ Hd. congruence.
  - (* the pool starts *)
    subst. simpl. split; [assumption|].
    destruct (busy_replicate_Ready (Z.to_nat (Workers u))) as [-> ->]. simpl.
    split; [reflexivity|]. split; [apply length_replicate|]. right. lia.
  - (* a worker receives a texture *)
    destruct Hi as (Hd & Hp & Hl & Hc). split; [exact Hd|].
    pose proof (busy_insert ws k Ready (Busy tex) Hk) as Hb. simpl in Hb.
    rewrite app_nil_r in Hb.
    pose proof (count_Exited_insert ws k Ready (Busy tex) Hk) as He. simpl in He.
    split; [|split; [rewrite length_insert; exact Hl|]].
    + rewrite Hp, Hb. rewrite <- app_assoc. simpl.
      apply Permutation_app_head, Permutation_app_head.
      reflexivity.
    + right. destruct Hc as [Hc|Hc]; [discriminate|]. lia.
  - (* a worker finds the channel closed *)
    destruct Hi as (Hd & Hp & Hl & Hc). split; [exact Hd|].
    pose proof (busy_insert ws k Ready Exited Hk) as Hb. simpl in Hb.
    rewrite !app_nil_r in Hb.
    split; [|split; [rewrite length_insert; exact Hl|left; reflexivity]].
    rewrite Hp, Hb. reflexivity.
  - (* a panic *) exact I.
  - (* unpackTexture returns an error *)
    destruct Hi as (Hd & Hp & Hl & Hc). split; [exact Hd|].
    pose proof (busy_insert ws k (Busy tex) Exited Hk) as Hb. simpl in Hb.
    rewrite app_nil_r in Hb.
    pose proof (count_Exited_insert ws k (Busy tex) Exited Hk) as He. simpl in He.
    rewrite unpacked_app. simpl.
    split; [|split; [rewrite length_insert; exact Hl|]].
    + rewrite Hp, <- Hb. rewrite <- !app_assoc. simpl.
      apply Permutation_app_head. symmetry. apply Permutation_middle.
    + destruct Hc as [Hc|Hc]; [left; exact Hc|right].
      rewrite count_app. simpl. unfold fails at 2.
      rewrite (unpackTexture_outcome_indep env u tex (Some img) _ w), Hout. simpl. lia.
  - (* unpackTexture returns nil *)
    destruct Hi as (Hd & Hp & Hl & Hc). split; [exact Hd|].
    pose proof (busy_insert ws k (Busy tex) Ready Hk) as Hb. simpl in Hb.
    rewrite app_nil_r in Hb.
    pose proof (count_Exited_insert ws k (Busy tex) Ready Hk) as He. simpl in He.
    rewrite unpacked_app. simpl.
    split; [|split; [rewrite length_insert; exact Hl|]].
    + rewrite Hp, <- Hb. rewrite <- !app_assoc. simpl.
      apply Permutation_app_head. symmetry. apply Permutation_middle.
    + destruct Hc as [Hc|Hc]; [left; exact Hc|right].
      rewrite count_app. lia.
  - (* every worker has exited *)
    destruct Hi as (Hd & Hp & Hl & Hc).
    intros img' Ho Hd' Hlt. rewrite Hd in Hd'. injection Hd' as <-.
    destruct (all_Exited ws Hall) as [Hb He]. rewrite Hb in Hp. simpl in Hp.
    destruct Hc as [->|Hc]; [rewrite app_nil_r in Hp; exact Hp|].
    exfalso. rewrite (count_Permutation _ _ _ Hp), count_app in Hlt. lia.
Qed.

Lemma count_unpack_only (img : image.Image) (h : list Event) :
  Forall (is_unpack_of img) h ->
  count is_open h = O /\ count is_decode h = O /\
  forall tex img' o, EvUnpack tex img' o ∈ h -> img' = img.
Proof.
  induction 1 as [|e h (tex & o & ->) _ (IH1 & IH2 & IH3)]; simpl.
  - split; [reflexivity|]. split; [reflexivity|]. intros ? ? ? Hin. inversion Hin.
  - split; [exact IH1|]. split; [exact IH2|].
    intros tex' img' o' Hin. apply elem_of_cons in Hin as [[= _ -> _]|Hin]; eauto.
Qed.
End SheetPipeline.



(** ** The files of a pool whose output paths are distinct *)

Section SheetFiles.
Variables (env : Env) (u : Unpacker) (sheet : Sheet).
Hypothesis Hsize : forall t, t ∈ Textures sheet -> Size_ok (SourceSize t).
Hypothesis Hnodup : NoDup (outputPath env u <$> Textures sheet).

Lemma files_inv_unpack (w : World) (h : list Event) (img : image.Image)
    (jobs : list Texture) (ws : list WorkerState) (res : list (option error))
    (k : nat) (tex : Texture) (o : outcome) (s' : SheetState) :
  pool_inv env u sheet {| st := SPool img jobs ws res; hist := h |} ->
  files_inv env u sheet (w, {| st := SPool img jobs ws res; hist := h |}) ->
  ws !! k = Some (Busy tex) ->
  files_inv env u sheet
    (fst (unpackTexture env u tex (Some img) w),
     {| st := s'; hist := h ++ [EvUnpack tex img o] |}).
Proof.
  intros (Hd & Hp & _ & _) Hf Hk. simpl in *.
  assert (Hb : tex ∈ busy ws) by (eapply busy_lookup; eauto).
  assert (Htex : tex ∈ Textures sheet).
  { rewrite Hp. rewrite !elem_of_app. auto. }
  intros img' t Hd' Hin Hio. simpl in *.
  rewrite Hd in Hd'. injection Hd' as <-.
  rewrite unpacked_app in Hin. simpl in Hin.
  apply elem_of_app in Hin as [Hin|Hin].
  - destruct (Hf img t Hd Hin Hio) as (sp & Hs & Hl).
    exists sp. split; [exact Hs|].
    rewrite unpackTexture_frame; [exact Hl|].
    intros Heq.
    assert (Hnd : NoDup (outputPath env u <$> (unpacked h ++ busy ws ++ jobs))).
    { rewrite <- Hp. exact Hnodup. }
    rewrite fmap_app in Hnd. apply NoDup_app in Hnd as (_ & Hnd & _).
    apply (Hnd (outputPath env u t)).
    + apply list_elem_of_fmap_2, Hin.
    + rewrite Heq. apply list_elem_of_fmap_2. rewrite elem_of_app. auto.
  - apply list_elem_of_singleton in Hin as ->.
    destruct (sprite_Rect tex img (Hsize tex Htex)) as (sp & Hs & Hr & _).
    exists sp. split; [exact Hs|].
    destruct (unpackTexture_io_ok env u tex img w sp (Hsize tex Htex) Hs Hr Hio) as [_ ->].
    apply lookup_insert_eq.
Qed.

Lemma files_inv_move (s s' : World * SheetRun) :
  pool_inv env u sheet (snd s) -> files_inv env u sheet s ->
  sheet_move env u sheet s s' -> files_inv env u sheet s'.
Proof.
  intros Hi Hf Hm.
  inversion Hm; subst;
    try (eapply files_inv_unpack; eassumption);
    intros img' t Hd' Hin Hio; simpl in *;
    try (rewrite unpacked_app in Hin; simpl in Hin; rewrite app_nil_r in Hin);
    exact (Hf img' t Hd' Hin Hio).
Qed.

(** A pool with fewer failing textures than workers puts every texture
    through [unpackTexture], and the file of every texture whose file
    operations succeed holds its canvas, whatever the schedule. *)
Lemma pool_complete (cs : list SheetChoice) (w0 w' : World) (r : SheetRun)
    (ret : option error) (img : image.Image) :
  exec (unpackSheet_step env u sheet) cs (w0, run0) = Some (w', r) ->
  st r = SDone ret ->
  os_Open env (sheetPath env u sheet) = None ->
  image_Decode env (sheetPath env u sheet) = inr img ->
  (count (fails env u img) (Textures sheet) < Z.to_nat (Workers u))%nat ->
  Textures sheet ≡ₚ unpacked (hist r) /\
  forall t, t ∈ Textures sheet -> io_ok env u t ->
    exists sprite, unpackTexture_sprite t (Some img) = Some sprite /\
                   files w' !! outputPath env u t = Some (Some sprite).
Proof.
  intros He Hst Ho Hd Hlt.
  assert (Hinv : pool_inv env u sheet (snd (w', r)) /\ files_inv env u sheet (w', r)).
  { apply (exec_invariant (unpackSheet_step env u sheet)
             (fun s => pool_inv env u sheet (snd s) /\ files_inv env u sheet s))
      with (cs := cs) (s := (w0, run0)); [| |exact He].
    - intros c s s2 [H1 H2] Hs. apply step_move in Hs. split.
      + eapply pool_inv_move; eauto.
      + eapply files_inv_move; eauto.
    - split; [reflexivity|]. intros img' t _ Hin. inversion Hin. }
  destruct Hinv as [Hpi Hfi]. simpl in Hpi.
  unfold pool_inv in Hpi. rewrite Hst in Hpi.
  specialize (Hpi img Ho Hd Hlt). split; [exact Hpi|].
  intros t Ht Hio. apply (Hfi img t Hd); [|exact Hio].
  simpl. rewrite <- Hpi. exact Ht.
Qed.
End SheetFiles.

(** ** A pool of one worker whose first texture fails *)

Section SingleWorker.
Variables (env : Env) (u : Unpacker) (sheet : Sheet).
Variables (img : image.Image) (bad : Texture) (rest : list Texture) (err : error).
Hypothesis Hworkers : Workers u = 1.
Hypothesis Htextures : Textures sheet = bad :: rest.
Hypothesis Hopen : os_Open env (sheetPath env u sheet) = None.
Hypothesis Hdecode : image_Decode env (sheetPath env u sheet) = inr img.
Hypothesis Hbad : forall w, snd (unpackTexture env u bad (Some img) w) = Return (Some err).

Lemma lookup_singleton_list {A : Type} (x y : A) (k : nat) :
  [x] !! k = Some y -> k = O /\ y = x.
Proof.
  destruct k as [|k]; simpl.
  - intros [= ->]. auto.
  - destruct k; discriminate.
Qed.

Lemma stuck_inv_move (w0 : World) (s s' : World * SheetRun) :
  (stuck_inv img bad rest err (snd s) /\
   forall q, q <> outputPath env u bad -> files (fst s) !! q = files w0 !! q) ->
  sheet_move env u sheet s s' ->
  stuck_inv img bad rest err (snd s') /\
  forall q, q <> outputPath env u bad -> files (fst s') !! q = files w0 !! q.
Proof.
  intros [Hi Hf] Hm. unfold stuck_inv in *.
  inversion Hm; subst; simpl in *;
    try match goal with H : _ !! _ = Some _ |- _ => rename H into Hk end;
    try match goal with H : snd _ = _ |- _ => rename H into Hout end;
    try match goal with H : forallb _ _ = true |- _ => rename H into Hall end.
  - congruence.
  - congruence.
  - split; [|exact Hf].
    match goal with H : image_Decode _ _ = inr _ |- _ => rewrite Hdecode in H;
      injection H as <- end.
    split; [reflexivity|]. left. rewrite Htextures, Hworkers, Hi. auto.
  - split; [|exact Hf]. destruct Hi as [-> [(Hj & -> & -> & Hu)|[(_ & -> & _)|(_ & -> & _)]]];
      apply lookup_singleton_list in Hk as [-> Hk]; try discriminate.
    injection Hj as -> ->. split; [reflexivity|]. right. left. auto.
  - split; [|exact Hf]. destruct Hi as [-> [(Hj & _)|[(_ & -> & _)|(_ & -> & _)]]];
      [discriminate| |]; apply lookup_singleton_list in Hk as [-> Hk]; discriminate.
  - destruct Hi as [-> [(_ & -> & _)|[(_ & -> & _)|(_ & -> & _)]]];
      apply lookup_singleton_list in Hk as [-> Hk]; try discriminate.
    injection Hk as ->. rewrite Hbad in Hout. discriminate.
  - destruct Hi as [-> [(_ & -> & _)|[(-> & -> & -> & Hu)|(_ & -> & _)]]];
      apply lookup_singleton_list in Hk as [-> Hk]; try discriminate.
    injection Hk as ->. rewrite Hbad in Hout. injection Hout as ->. split.
    + split; [reflexivity|]. right. right. rewrite unpacked_app, Hu. auto.
    + intros q Hq. rewrite unpackTexture_frame by exact Hq. apply Hf, Hq.
  - destruct Hi as [-> [(_ & -> & _)|[(_ & -> & _)|(_ & -> & _)]]];
      apply lookup_singleton_list in Hk as [-> Hk]; try discriminate.
    injection Hk as ->. rewrite Hbad in Hout. discriminate.
  - split; [|exact Hf]. destruct Hi as [-> [(_ & -> & _)|[(_ & -> & _)|(_ & -> & -> & Hu)]]];
      try discriminate. auto.
Qed.

(** Along every schedule the pool stays within those states and leaves
    every file but that of [bad] as it found it. *)
Lemma single_worker_stuck (cs : list SheetChoice) (w0 w' : World) (r : SheetRun) :
  exec (unpackSheet_step env u sheet) cs (w0, run0) = Some (w', r) ->
  stuck_inv img bad rest err r /\
  forall q, q <> outputPath env u bad -> files w' !! q = files w0 !! q.
Proof.
  intros He.
  apply (exec_invariant (unpackSheet_step env u sheet)
           (fun s => stuck_inv img bad rest err (snd s) /\
                     forall q, q <> outputPath env u bad ->
                               files (fst s) !! q = files w0 !! q))
    with (cs := cs) (s := (w0, run0)) (s' := (w', r)); [| |exact He].
  - intros c s s2 Hi Hs. eapply stuck_inv_move; [exact Hi|]. eapply step_move; eauto.
  - split; [reflexivity|]. auto.
Qed.
End SingleWorker.

(** ** The worker that fails stops taking jobs *)

Lemma tex_empty_fails (u : Unpacker) (w : World) :
  snd (unpackTexture env_ok u tex_empty (Some sheet2x2) w) = Return (Some err_empty).
Proof.
  rewrite (unpackTexture_outcome_indep env_ok u tex_empty (Some sheet2x2) w world0).
  unfold unpackTexture, outputPath. cbn [os_Create env_ok os_MkdirAll].
  replace (unpackTexture_sprite tex_empty (Some sheet2x2))
    with (Some {| image.Pix := []; image.Stride := 0;
                  image.Rect := Size.Rect (SourceSize tex_empty) |})
    by (vm_compute; reflexivity).
  reflexivity.
Qed.

(** C5 at a failing input.  The sheet holds [tex_empty], whose canvas cannot
    be encoded, then [tex_plain]; there is one worker.  Along every
    schedule [tex_plain] is never handed to a worker, never goes through
    [unpackTexture], and its file is never written; the schedule in which
    the worker takes [tex_empty], fails and exits ends with [unpackSheet]
    returning the error of [tex_empty]. *)
Theorem failed_worker_abandons_queue :
  (forall cs w' r,
      exec (unpackSheet_step env_ok (mkUnpacker [sheet_empty_plain] 1) sheet_empty_plain)
        cs (world0, run0) = Some (w', r) ->
      (tex_plain ∉ unpacked (hist r)) /\
      (forall img jobs ws res, st r = SPool img jobs ws res -> tex_plain ∉ busy ws) /\
      files w' !! "out/plain.png" = None) /\
  exec (unpackSheet_step env_ok (mkUnpacker [sheet_empty_plain] 1) sheet_empty_plain)
    [CStart; CWorker 0; CWorker 0; CWait] (world0, run0)
  = Some (write_file "out/empty.png" None world0,
          {| st := SDone (Some err_empty);
             hist := [EvOpen "in/sheet.webp"; EvDecode "in/sheet.webp";
                      EvUnpack tex_empty sheet2x2 (Return (Some err_empty))] |}).
Proof.
  split.
  - intros cs w' r He.
    destruct (single_worker_stuck env_ok (mkUnpacker [sheet_empty_plain] 1)
                sheet_empty_plain sheet2x2 tex_empty [tex_plain] err_empty
                eq_refl eq_refl eq_refl eq_refl (tex_empty_fails _) cs world0 w' r He)
      as [Hi Hf].
    assert (Hne : tex_plain <> tex_empty) by discriminate.
    unfold stuck_inv in Hi. split; [|split].
    + destruct (st r) as [|img jobs ws res|ret|].
      * rewrite Hi. apply not_elem_of_nil.
      * destruct Hi as [_ [(_ & _ & _ & ->)|[(_ & _ & _ & ->)|(_ & _ & _ & ->)]]];
          try apply not_elem_of_nil.
        intros Hin. apply list_elem_of_singleton in Hin. contradiction.
      * destruct Hi as [_ ->].
        intros Hin. apply list_elem_of_singleton in Hin. contradiction.
      * contradiction.
    + intros img jobs ws res Hst. rewrite Hst in Hi.
      destruct Hi as [_ [(_ & -> & _)|[(_ & -> & _)|(_ & -> & _)]]]; simpl;
        try apply not_elem_of_nil.
      intros Hin. apply list_elem_of_singleton in Hin. contradiction.
    + rewrite Hf; [reflexivity|]. vm_compute. discriminate.
  - vm_compute. reflexivity.
Qed.

(** C8 at a failing input.  The same sheet, the same files to read, two
    worker counts.  With one worker no schedule ever writes the file of
    [tex_plain]; with two workers every schedule that lets [unpackSheet]
    return has written it, and it holds the canvas of [tex_plain].  Both
    pools have a schedule that returns. *)
Theorem worker_count_changes_files :
  (forall cs w' r,
      exec (unpackSheet_step env_ok (mkUnpacker [sheet_empty_plain] 1) sheet_empty_plain)
        cs (world0, run0) = Some (w', r) ->
      files w' !! "out/plain.png" = None) /\
  (exists w' r,
      exec (unpackSheet_step env_ok (mkUnpacker [sheet_empty_plain] 1) sheet_empty_plain)
        [CStart; CWorker 0; CWorker 0; CWait] (world0, run0) = Some (w', r) /\
      st r = SDone (Some err_empty) /\
      files w' !! "out/plain.png" = None) /\
  (forall cs w' r ret,
      exec (unpackSheet_step env_ok (mkUnpacker [sheet_empty_plain] 2) sheet_empty_plain)
        cs (world0, run0) = Some (w', r) ->
      st r = SDone ret ->
      exists sprite,
        unpackTexture_sprite tex_plain (Some sheet2x2) = Some sprite /\
        files w' !! "out/plain.png" = Some (Some sprite)) /\
  (exists w' r sprite,
      exec (unpackSheet_step env_ok (mkUnpacker [sheet_empty_plain] 2) sheet_empty_plain)
        [CStart; CWorker 0; CWorker 1; CWorker 0; CWorker 1; CWorker 1; CWait]
        (world0, run0) = Some (w', r) /\
      st r = SDone (Some err_empty) /\
      files w' !! "out/plain.png" = Some (Some sprite)).
Proof.
  split; [|split; [|split]].
  - intros cs w' r He.
    destruct (single_worker_stuck env_ok (mkUnpacker [sheet_empty_plain] 1)
                sheet_empty_plain sheet2x2 tex_empty [tex_plain] err_empty
                eq_refl eq_refl eq_refl eq_refl (tex_empty_fails _) cs world0 w' r He)
      as [_ Hf].
    rewrite Hf; [reflexivity|]. vm_compute. discriminate.
  - eexists _, _. split; [vm_compute; reflexivity|]. split; reflexivity.
  - intros cs w' r ret He Hst.
    destruct (pool_complete env_ok (mkUnpacker [sheet_empty_plain] 2) sheet_empty_plain)
      with (cs := cs) (w0 := world0) (w' := w') (r := r) (ret := ret) (img := sheet2x2)
      as [_ Hfiles]; try reflexivity; try assumption.
    + intros t Ht. apply elem_of_cons in Ht as [->|Ht];
        [|apply list_elem_of_singleton in Ht as ->]; unfold Size_ok; simpl; lia.
    + change (NoDup ["out/empty.png"; "out/plain.png"]).
      apply NoDup_cons. split; [|apply NoDup_singleton].
      intros Hin. apply list_elem_of_singleton in Hin. discriminate.
    + vm_compute. lia.
    + apply (Hfiles tex_plain).
      * apply list_elem_of_further, list_elem_of_here.
      * unfold io_ok. simpl. repeat split; (reflexivity || lia || discriminate).
  - eexists _, _, _. split; [vm_compute; reflexivity|]. split; reflexivity.
Qed.

(** ** Every pipeline comes to an end *)

Section SheetProgress.
Variables (env : Env) (u : Unpacker) (sheet : Sheet).

Lemma pool_weight_insert (ws : list WorkerState) (k : nat) (x y : WorkerState) :
  ws !! k = Some x ->
  (pool_weight (<[k := y]> ws) + worker_weight x = pool_weight ws + worker_weight y)%nat.
Proof.
  revert k. induction ws as [|w ws IH]; intros k Hk; [discriminate|].
  destruct k as [|k]; simpl in *.
  - injection Hk as ->. lia.
  - specialize (IH k Hk). lia.
Qed.

Lemma pool_weight_replicate (n : nat) : pool_weight (replicate n Ready) = n.
Proof. induction n as [|n IH]; simpl; [reflexivity|]. rewrite IH. reflexivity. Qed.

Lemma sheet_mu_move (s s' : World * SheetRun) :
  sheet_move env u sheet s s' ->
  (sheet_mu u sheet (snd s') < sheet_mu u sheet (snd s))%nat.
Proof.
  intros Hm. unfold sheet_mu.
  inversion Hm; subst; simpl;
    try match goal with
      | H : ?ws !! ?k = Some ?x |- context [pool_weight (<[?k := ?y]> ?ws)] =>
          pose proof (pool_weight_insert ws k x y H); simpl in *
      end;
    rewrite ?pool_weight_replicate; lia.
Qed.

Lemma not_all_Exited (ws : list WorkerState) :
  forallb is_Exited ws = false ->
  exists k, ws !! k = Some Ready \/ exists tex, ws !! k = Some (Busy tex).
Proof.
  induction ws as [|w ws IH]; simpl; [discriminate|].
  destruct w; simpl.
  - intros _. exists O. left. reflexivity.
  - intros _. exists O. right. eauto.
  - intros H. destruct (IH H) as [k Hk]. exists (S k). exact Hk.
Qed.

(** A pipeline that has neither returned nor panicked can move. *)
Lemma sheet_progress (w : World) (r : SheetRun) :
  (forall ret, st r <> SDone ret) -> st r <> SPanic ->
  exists c s', unpackSheet_step env u sheet c (w, r) = Some s'.
Proof.
  intros Hnd Hnp. destruct r as [s h]. simpl in *.
  destruct s as [|img jobs ws res|ret|]; [| |exfalso; eapply Hnd; eauto|congruence].
  - exists CStart. unfold unpackSheet_step. simpl.
    destruct (os_Open env _); [eauto|]. destruct (image_Decode env _); eauto.
  - destruct (forallb is_Exited ws) eqn:Hall.
    + exists CWait. unfold unpackSheet_step. cbn [st]. rewrite ?Hall. eauto.
    + destruct (not_all_Exited ws Hall) as [k [Hk|[tex Hk]]];
        exists (CWorker k); unfold unpackSheet_step; cbn [st]; rewrite Hk.
      * destruct jobs; eauto.
      * destruct (snd (unpackTexture env u tex (Some img) w)) as [|[e|]]; eauto.
Qed.

(** With sizes that [image.NewRGBA] accepts no move panics. *)
Lemma no_panic_move (s s' : World * SheetRun) :
  (forall t, t ∈ Textures sheet -> Size_ok (SourceSize t)) ->
  pool_inv env u sheet (snd s) -> sheet_move env u sheet s s' ->
  st (snd s') <> SPanic.
Proof.
  intros Hsize Hi Hm. inversion Hm; subst; simpl; try discriminate.
  exfalso. unfold pool_inv in Hi. simpl in Hi. destruct Hi as (_ & Hp & _).
  match goal with H : _ !! _ = Some (Busy _) |- _ => apply busy_lookup in H as Hb end.
  assert (Ht : tex ∈ Textures sheet) by (rewrite Hp, !elem_of_app; auto).
  destruct (unpackTexture_Return env u tex img w (Hsize tex Ht)) as (r & Hr & _).
  congruence.
Qed.
End SheetProgress.

(** ** The whole run *)

Section PackRun.
Variables (env : Env) (u : Unpacker).
Hypothesis Hsize :
  forall sh t, sh ∈ Sheets (Pack_ u) -> t ∈ Textures sh -> Size_ok (SourceSize t).

Lemma goroutines_mu_insert (gs : list Goroutine) (i : nat) (g g' : Goroutine) :
  gs !! i = Some g ->
  (goroutines_mu u (<[i := g']> gs) + goroutine_mu u g
   = goroutines_mu u gs + goroutine_mu u g')%nat.
Proof.
  revert i. induction gs as [|x gs IH]; intros i Hi; [discriminate|].
  destruct i as [|i]; simpl in *.
  - injection Hi as ->. lia.
  - specialize (IH i Hi). lia.
Qed.

Lemma omap_insert_same {A B : Type} (f : A -> option B) (l : list A) (i : nat) (x y : A) :
  l !! i = Some x -> f x = f y -> omap f (<[i := y]> l) = omap f l.
Proof.
  revert i. induction l as [|a l IH]; intros i Hi Hf; [discriminate|].
  destruct i as [|i]; simpl in *.
  - injection Hi as ->. rewrite Hf. reflexivity.
  - specialize (IH i Hi Hf). destruct (f a); [f_equal|]; exact IH.
Qed.

Lemma omap_insert_Some {A B : Type} (f : A -> option B) (l : list A) (i : nat)
    (x y : A) (b : B) :
  l !! i = Some x -> f x = None -> f y = Some b ->
  omap f (<[i := y]> l) ≡ₚ omap f l ++ [b].
Proof.
  revert i. induction l as [|a l IH]; intros i Hi Hx Hy; [discriminate|].
  destruct i as [|i]; simpl in *.
  - injection Hi as ->. rewrite Hx, Hy. apply Permutation_cons_append.
  - specialize (IH i Hi Hx Hy). destruct (f a); [apply perm_skip|]; exact IH.
Qed.

Lemma fmap_insert_same {A B : Type} (f : A -> B) (l : list A) (i : nat) (x y : A) :
  l !! i = Some x -> f x = f y -> f <$> <[i := y]> l = f <$> l.
Proof.
  revert i. induction l as [|a l IH]; intros i Hi Hf; [discriminate|].
  destruct i as [|i]; simpl in *.
  - injection Hi as ->. rewrite Hf. reflexivity.
  - f_equal. exact (IH i Hi Hf).
Qed.

Lemma forallb_joined_false (gs : list Goroutine) :
  forallb joined gs = false -> exists i g, gs !! i = Some g /\ joined g = false.
Proof.
  induction gs as [|g gs IH]; simpl; [discriminate|].
  destruct (joined g) eqn:Hj; simpl.
  - intros H. destruct (IH H) as (i & g' & Hi & Hg). exists (S i), g'. auto.
  - intros _. exists O, g. auto.
Qed.

Lemma existsb_panicked_false (gs : list Goroutine) :
  Forall (goroutine_inv env u) gs -> existsb panicked gs = false.
Proof.
  induction 1 as [|g gs (_ & _ & Hg) _ IH]; simpl; [reflexivity|].
  rewrite IH. unfold panicked. destruct (st (run g)); try reflexivity. congruence.
Qed.

Lemma sheet_of_elem (s : PackState) (i : nat) (g : Goroutine) :
  sheet_of <$> goroutines s = Sheets (Pack_ u) -> goroutines s !! i = Some g ->
  sheet_of g ∈ Sheets (Pack_ u).
Proof.
  intros Hs Hi. rewrite <- Hs. apply list_elem_of_fmap_2.
  eapply list_elem_of_lookup_2. exact Hi.
Qed.

Lemma pack_inv_step (c : PackChoice) (s s' : PackState) :
  pack_inv env u s -> unpack_step env u c s = Some s' -> pack_inv env u s'.
Proof.
  intros (Hg & Hsh & Hfe & Hcap & Hret). unfold unpack_step.
  destruct (returned s) eqn:Hr; [discriminate|].
  rewrite (existsb_panicked_false _ Hg).
  destruct c as [i c'|i|].
  - (* a move of the pipeline of sheet i *)
    destruct (goroutines s !! i) as [g|] eqn:Hi; [|discriminate].
    destruct (unpackSheet_step env u (sheet_of g) c' (world s, run g)) as [[w' r']|] eqn:Hst;
      [|discriminate].
    intros [= <-]. unfold pack_inv. simpl.
    pose proof (Forall_lookup_1 _ _ _ _ Hg Hi) as (Hpi & Hj & Hnp).
    apply step_move in Hst as Hm.
    assert (Hnj : joined g = false).
    { destruct (joined g) eqn:E; [|reflexivity].
      destruct (Hj eq_refl) as [ret Hd]. destruct (run g) as [sg hg]. simpl in Hd. subst sg.
      rewrite step_SDone in Hst. discriminate. }
    split; [|split; [|split; [|split]]].
    + apply Forall_insert; [exact Hg|]. unfold goroutine_inv. simpl.
      split; [exact (pool_inv_move env u (sheet_of g) (world s, run g) (w', r') Hpi Hm)|].
      split.
      * rewrite Hnj. discriminate.
      * apply (no_panic_move env u (sheet_of g) (world s, run g) (w', r')
                 (fun t => Hsize (sheet_of g) t (sheet_of_elem s i g Hsh Hi)) Hpi Hm).
    + rewrite <- Hsh. apply fmap_insert_same with (x := g); [exact Hi|reflexivity].
    + exact Hfe.
    + rewrite Hcap. rewrite omap_insert_same with (x := g); [reflexivity|exact Hi|].
      unfold joined_error. simpl. rewrite Hnj. reflexivity.
    + discriminate.
  - (* goroutine i goes through the mutex *)
    destruct (goroutines s !! i) as [g|] eqn:Hi; [|discriminate].
    destruct (joined g) eqn:Hnj; [discriminate|].
    destruct (st (run g)) as [| |ret|] eqn:Hd; try discriminate.
    pose proof (Forall_lookup_1 _ _ _ _ Hg Hi) as (Hpi & Hj & Hnp).
    assert (Hg' : Forall (goroutine_inv env u)
                    (<[i := {| sheet_of := sheet_of g; run := run g; joined := true |}]>
                       (goroutines s))).
    { apply Forall_insert; [exact Hg|]. unfold goroutine_inv. simpl.
      split; [exact Hpi|]. split; [eauto|exact Hnp]. }
    assert (Hsh' : sheet_of <$> <[i := {| sheet_of := sheet_of g; run := run g;
                                           joined := true |}]> (goroutines s)
                   = Sheets (Pack_ u)).
    { rewrite <- Hsh. apply fmap_insert_same with (x := g); [exact Hi|reflexivity]. }
    destruct ret as [err|]; intros [= <-]; unfold pack_inv; simpl;
      (split; [exact Hg'|]); (split; [exact Hsh'|]).
    + split; [|split; [|discriminate]].
      * rewrite Hfe. destruct (captured s); reflexivity.
      * rewrite Hcap. symmetry.
        apply omap_insert_Some with (x := g); [exact Hi| |].
        -- unfold joined_error. rewrite Hnj. reflexivity.
        -- unfold joined_error, returned_error. simpl. rewrite Hd. reflexivity.
    + split; [exact Hfe|]. split; [|discriminate].
      rewrite Hcap. rewrite omap_insert_same with (x := g); [reflexivity|exact Hi|].
      unfold joined_error, returned_error. simpl. rewrite Hnj, Hd. reflexivity.
  - (* unpack returns *)
    destruct (forallb joined (goroutines s)) eqn:Hall; [|discriminate].
    intros [= <-]. unfold pack_inv. simpl.
    split; [exact Hg|]. split; [exact Hsh|]. split; [exact Hfe|]. split; [exact Hcap|].
    intros r [= <-]. auto.
Qed.

Lemma pack_inv_init (w0 : World) :
  os_MkdirAll env (OutputDir u) = None -> pack_inv env u (unpack_init env u w0).
Proof.
  intros Hmk. unfold unpack_init. rewrite Hmk. unfold pack_inv. simpl.
  split; [|split; [|split; [reflexivity|split; [|discriminate]]]].
  - apply Forall_fmap, Forall_forall. intros sh _. unfold goroutine_inv. simpl.
    split; [reflexivity|]. split; discriminate.
  - rewrite <- list_fmap_compose. apply list_fmap_id.
  - generalize (Sheets (Pack_ u)) as l. clear.
    induction l as [|sh l IH]; simpl; [reflexivity|exact IH].
Qed.

Lemma pack_mu_step (c : PackChoice) (s s' : PackState) :
  unpack_step env u c s = Some s' -> (pack_mu u s' < pack_mu u s)%nat.
Proof.
  unfold unpack_step, pack_mu.
  destruct (returned s) eqn:Hr; [discriminate|].
  destruct (existsb panicked (goroutines s)); [discriminate|].
  destruct c as [i c'|i|].
  - destruct (goroutines s !! i) as [g|] eqn:Hi; [|discriminate].
    destruct (unpackSheet_step env u (sheet_of g) c' (world s, run g)) as [[w' r']|] eqn:Hst;
      [|discriminate].
    intros [= <-]. simpl.
    apply step_move, sheet_mu_move in Hst. simpl in Hst.
    pose proof (goroutines_mu_insert (goroutines s) i g
                  {| sheet_of := sheet_of g; run := r'; joined := joined g |} Hi) as E.
    unfold goroutine_mu in E. simpl in E. lia.
  - destruct (goroutines s !! i) as [g|] eqn:Hi; [|discriminate].
    destruct (joined g) eqn:Hnj; [discriminate|].
    destruct (st (run g)) as [| |ret|] eqn:Hd; try discriminate.
    pose proof (goroutines_mu_insert (goroutines s) i g
                  {| sheet_of := sheet_of g; run := run g; joined := true |} Hi) as E.
    unfold goroutine_mu in E. simpl in E. rewrite Hnj in E.
    destruct ret; intros [= <-]; simpl; lia.
  - destruct (forallb joined (goroutines s)); [|discriminate].
    intros [= <-]. simpl. lia.
Qed.

(** While [unpack] has not returned, some goroutine can move. *)
Lemma pack_progress (s : PackState) :
  pack_inv env u s ->
  returned s <> None \/ exists c s', unpack_step env u c s = Some s'.
Proof.
  intros (Hg & Hsh & Hfe & Hcap & Hret).
  destruct (returned s) eqn:Hr; [left; discriminate|right].
  unfold unpack_step. rewrite Hr, (existsb_panicked_false _ Hg).
  destruct (forallb joined (goroutines s)) eqn:Hall.
  - exists PReturn. rewrite ?Hall. eauto.
  - destruct (forallb_joined_false _ Hall) as (i & g & Hi & Hnj).
    pose proof (Forall_lookup_1 _ _ _ _ Hg Hi) as (Hpi & Hj & Hnp).
    destruct (st (run g)) as [|img jobs ws res|ret|] eqn:Hd.
    + destruct (sheet_progress env u (sheet_of g) (world s) (run g)) as (c & [w' r'] & Hs);
        [rewrite Hd; discriminate|rewrite Hd; discriminate|].
      exists (PSheet i c). rewrite Hi, Hs. eauto.
    + destruct (sheet_progress env u (sheet_of g) (world s) (run g)) as (c & [w' r'] & Hs);
        [rewrite Hd; discriminate|rewrite Hd; discriminate|].
      exists (PSheet i c). rewrite Hi, Hs. eauto.
    + exists (PJoin i). rewrite Hi, Hnj, Hd. destruct ret; eauto.
    + congruence.
Qed.
End PackRun.

Lemma forallb_Forall {A : Type} (f : A -> bool) (l : list A) :
  forallb f l = true -> Forall (fun x => f x = true) l.
Proof.
  induction l as [|x l IH]; simpl; [constructor|].
  intros H. apply andb_true_iff in H as [Hx Hl]. constructor; auto.
Qed.

Lemma omap_nil_Forall {A B : Type} (f : A -> option B) (l : list A) :
  omap f l = [] <-> Forall (fun x => f x = None) l.
Proof.
  induction l as [|x l IH]; simpl.
  - split; [constructor|reflexivity].
  - change (match f x with Some y => y :: omap f l | None => omap f l end = []
            <-> Forall (fun x => f x = None) (x :: l)).
    rewrite Forall_cons. destruct (f x) eqn:E.
    + split; [discriminate|]. intros [? _]. discriminate.
    + rewrite IH. tauto.
Qed.

Lemma omap_ext_Forall {A B : Type} (f g : A -> option B) (l : list A) :
  Forall (fun x => f x = g x) l -> omap f l = omap g l.
Proof.
  induction 1 as [|x l Hx _ IH]; [reflexivity|].
  change (match f x with Some y => y :: omap f l | None => omap f l end
          = match g x with Some y => y :: omap g l | None => omap g l end).
  rewrite Hx, IH. reflexivity.
Qed.



(** Two sheets, the first missing: one schedule, run to the end.  [unpack]
    returns the error of the missing sheet, and both files of the second
    sheet are written. *)
Example missing_sheet_spares_the_other :
  exists s sprite1 sprite2,
    exec (unpack_step env_missing unpacker_two)
      [PSheet 0 CStart; PSheet 1 CStart;
       PSheet 1 (CWorker 0); PSheet 1 (CWorker 1); PJoin 0;
       PSheet 1 (CWorker 1); PSheet 1 (CWorker 0);
       PSheet 1 (CWorker 0); PSheet 1 (CWorker 1);
       PSheet 1 CWait; PJoin 1; PReturn]
      (unpack_init env_missing unpacker_two world0) = Some s /\
    returned s = Some (Some (Errorf "failed to open texture sheet"
                               (EnvError "no such file or directory"))) /\
    files (world s) !! "out/plain.png" = Some (Some sprite1) /\
    files (world s) !! "out/dir/trimmed.png" = Some (Some sprite2) /\
    unpackTexture_sprite tex_plain (Some sheet2x2) = Some sprite1 /\
    unpackTexture_sprite tex_trimmed (Some sheet2x2) = Some sprite2.
Proof.
  eexists _, _, _. split; [vm_compute; reflexivity|].
  repeat split; vm_compute; reflexivity.
Qed.

(** * Further properties of the code *)

(** ** [unpackTexture]: clipping, panics and what is left on disk *)

(** X1: clipping.  A pixel of the canvas that is not transparent lies in
    [spriteSourceSize], and the sheet has a pixel at the same offset from
    [frame]'s corner, which is the one copied: nothing is read from outside
    the sheet and nothing is written outside [spriteSourceSize]. *)
Theorem canvas_pixel_provenance (t : Texture) (img : image.Image) :
  Size_ok (SourceSize t) -> geometry_small t img ->
  exists s,
    unpackTexture_sprite t (Some img) = Some s /\
    forall x y,
      image.RGBAAt s x y <> color.zero ->
      image.Point_In {| image.X := x; image.Y := y |} (Frame.Rect (SpriteSourceSize t)) = true /\
      image.Point_In {| image.X := x; image.Y := y |} (image.Rect s) = true /\
      image.Point_In
        {| image.X := Frame.X (Frame t) + (x - Frame.X (SpriteSourceSize t));
           image.Y := Frame.Y (Frame t) + (y - Frame.Y (SpriteSourceSize t)) |}
        (image.Bounds img) = true /\
      image.RGBAAt s x y
        = image.At img (Frame.X (Frame t) + (x - Frame.X (SpriteSourceSize t)))
                       (Frame.Y (Frame t) + (y - Frame.Y (SpriteSourceSize t))).
Proof.
  intros Hok Hgeo.
  destruct (sprite_At t img Hok Hgeo) as (s & Hs & Hr & Hat).
  exists s. split; [exact Hs|].
  intros x y Hnz. rewrite Hat in Hnz. rewrite Hr, Hat.
  destruct (image.Point_In _ (Frame.Rect (SpriteSourceSize t)));
    [|simpl in Hnz; congruence].
  destruct (image.Point_In _ (Size.Rect (SourceSize t)));
    [|simpl in Hnz; congruence].
  destruct (image.Point_In _ (image.Bounds img)); [|simpl in Hnz; congruence].
  simpl. auto.
Qed.

Lemma canvas_pixel_provenance_witness :
  exists s,
    unpackTexture_sprite tex_overhang (Some sheet2x2) = Some s /\
    forall x y,
      image.RGBAAt s x y <> color.zero ->
      image.Point_In {| image.X := x; image.Y := y |}
        (Frame.Rect (SpriteSourceSize tex_overhang)) = true /\
      image.Point_In {| image.X := x; image.Y := y |} (image.Rect s) = true /\
      image.Point_In
        {| image.X := Frame.X (Frame tex_overhang)
                      + (x - Frame.X (SpriteSourceSize tex_overhang));
           image.Y := Frame.Y (Frame tex_overhang)
                      + (y - Frame.Y (SpriteSourceSize tex_overhang)) |}
        (image.Bounds sheet2x2) = true /\
      image.RGBAAt s x y
        = image.At sheet2x2
            (Frame.X (Frame tex_overhang) + (x - Frame.X (SpriteSourceSize tex_overhang)))
            (Frame.Y (Frame tex_overhang) + (y - Frame.Y (SpriteSourceSize tex_overhang))).
Proof.
  apply (canvas_pixel_provenance tex_overhang sheet2x2).
  - unfold Size_ok. simpl. lia.
  - unfold geometry_small, Frame_small, small, bounded_Rectangle, bounded_Point, bounded.
    simpl. lia.
Defined.

(** X2: a [spriteSourceSize] without area (a width or a height of zero or
    less) is no error: the canvas is built at the size of [sourceSize], left
    wholly transparent, and written like any other when the file operations
    succeed. *)
Theorem empty_spriteSourceSize_blank (env : Env) (u : Unpacker) (t : Texture)
    (img : image.Image) (w : World) :
  Size_ok (SourceSize t) -> geometry_small t img ->
  Frame.Width (SpriteSourceSize t) <= 0 \/ Frame.Height (SpriteSourceSize t) <= 0 ->
  exists s,
    unpackTexture_sprite t (Some img) = Some s /\
    image.Rect s = Size.Rect (SourceSize t) /\
    (forall x y, image.RGBAAt s x y = color.zero) /\
    (io_ok env u t ->
     snd (unpackTexture env u t (Some img) w) = Return None /\
     files (fst (unpackTexture env u t (Some img) w)) !! outputPath env u t
       = Some (Some s)).
Proof.
  intros Hok Hgeo Hempty.
  destruct (sprite_At t img Hok Hgeo) as (s & Hs & Hr & Hat).
  exists s. split; [exact Hs|]. split; [exact Hr|]. split.
  - intros x y. rewrite Hat.
    destruct Hgeo as (_ & (Hs1 & Hs2 & Hs3 & Hs4) & _). unfold small in *.
    replace (image.Point_In {| image.X := x; image.Y := y |}
               (Frame.Rect (SpriteSourceSize t))) with false; [reflexivity|].
    symmetry. apply not_true_is_false. rewrite Point_In_spec. simpl.
    unwrap. lia.
  - intros Hio.
    destruct (unpackTexture_io_ok env u t img w s Hok Hs Hr Hio) as [E1 E2].
    split; [exact E1|]. rewrite E2. apply lookup_insert_eq.
Qed.

Lemma empty_spriteSourceSize_blank_witness :
  exists s,
    unpackTexture_sprite tex_inverted (Some sheet2x2) = Some s /\
    image.Rect s = Size.Rect (SourceSize tex_inverted) /\
    (forall x y, image.RGBAAt s x y = color.zero) /\
    (io_ok env_ok (mkUnpacker [] 1) tex_inverted ->
     snd (unpackTexture env_ok (mkUnpacker [] 1) tex_inverted (Some sheet2x2) world0)
       = Return None /\
     files (fst (unpackTexture env_ok (mkUnpacker [] 1) tex_inverted (Some sheet2x2) world0))
       !! outputPath env_ok (mkUnpacker [] 1) tex_inverted
       = Some (Some s)).
Proof.
  apply (empty_spriteSourceSize_blank env_ok (mkUnpacker [] 1) tex_inverted sheet2x2 world0).
  - unfold Size_ok. simpl. lia.
  - unfold geometry_small, Frame_small, small, bounded_Rectangle, bounded_Point, bounded.
    simpl. lia.
  - left. simpl. lia.
Defined.

(** X3: the width and the height of [frame] are never consulted.  Two
    textures that differ only there (and in the flags) are treated alike by
    [unpackTexture]: same canvas, same outcome, same files. *)
Theorem frame_size_ignored (env : Env) (u : Unpacker) (t1 t2 : Texture)
    (img : option image.Image) (w : World) :
  FileName t1 = FileName t2 ->
  Frame.X (Frame t1) = Frame.X (Frame t2) ->
  Frame.Y (Frame t1) = Frame.Y (Frame t2) ->
  SpriteSourceSize t1 = SpriteSourceSize t2 ->
  SourceSize t1 = SourceSize t2 ->
  unpackTexture_sprite t1 img = unpackTexture_sprite t2 img /\
  unpackTexture env u t1 img w = unpackTexture env u t2 img w.
Proof.
  intros Hn Hx Hy Hs Hz.
  assert (E : unpackTexture_sprite t1 img = unpackTexture_sprite t2 img).
  { unfold unpackTexture_sprite, Frame.Rect, Frame.Min. simpl.
    rewrite Hx, Hy, Hs, Hz. reflexivity. }
  split; [exact E|].
  unfold unpackTexture, subDir, outputPath. rewrite E, Hn. reflexivity.
Qed.

Lemma frame_size_ignored_witness :
  unpackTexture_sprite tex_plain (Some sheet2x2)
    = unpackTexture_sprite (set_Frame_size 1 7 tex_plain) (Some sheet2x2) /\
  unpackTexture env_ok (mkUnpacker [] 1) tex_plain (Some sheet2x2) world0
    = unpackTexture env_ok (mkUnpacker [] 1) (set_Frame_size 1 7 tex_plain)
        (Some sheet2x2) world0.
Proof.
  apply (frame_size_ignored env_ok (mkUnpacker [] 1) tex_plain
           (set_Frame_size 1 7 tex_plain) (Some sheet2x2) world0); reflexivity.
Defined.

(** X4: a [sourceSize] that [image.NewRGBA] refuses (a negative side, or
    more than 2^63 bytes of pixels) makes [unpackTexture] panic before it
    touches the file system, whatever the image and the environment. *)
Theorem bad_sourceSize_panics (env : Env) (u : Unpacker) (t : Texture)
    (img : option image.Image) (w : World) :
  int_range (Size.Width (SourceSize t)) -> int_range (Size.Height (SourceSize t)) ->
  ~ Size_ok (SourceSize t) ->
  unpackTexture env u t img w = (w, Panic).
Proof.
  intros Hw Hh Hno. unfold unpackTexture, unpackTexture_sprite.
  rewrite (NewRGBA_panics _ Hw Hh Hno). reflexivity.
Qed.

Lemma bad_sourceSize_panics_witness :
  unpackTexture env_ok (mkUnpacker [] 1) tex_negative (Some sheet2x2) world0
    = (world0, Panic).
Proof.
  apply (bad_sourceSize_panics env_ok (mkUnpacker [] 1) tex_negative (Some sheet2x2) world0).
  - unfold int_range. simpl. lia.
  - unfold int_range. simpl. lia.
  - unfold Size_ok. simpl. lia.
Defined.

(** X5: a [sourceSize] with a side of zero passes [image.NewRGBA] but not
    the encoder.  Once the directory and the file are made, [unpackTexture]
    returns the format error of [png.Encoder.Encode], wrapped, and leaves
    the file it has just created behind, empty. *)
Theorem empty_canvas_leaves_empty_file (env : Env) (u : Unpacker) (t : Texture)
    (img : image.Image) (w : World) :
  Size_ok (SourceSize t) ->
  Size.Width (SourceSize t) = 0 \/ Size.Height (SourceSize t) = 0 ->
  (strings_Contains (FileName t) "/" = true ->
   os_MkdirAll env (subDir env u t) = None) ->
  os_Create env (outputPath env u t) = None ->
  snd (unpackTexture env u t (Some img) w)
    = Return (Some (Errorf "failed to encode sprite as png"
                      (png_FormatError (Size.Width (SourceSize t))
                                       (Size.Height (SourceSize t))))) /\
  files (fst (unpackTexture env u t (Some img) w)) !! outputPath env u t = Some None.
Proof.
  intros Hok Hzero Hmk Hcr.
  destruct (sprite_Rect t img Hok) as (s & Hs & Hr & _).
  unfold unpackTexture. rewrite Hs, (png_Encode_spec env _ t s Hok Hr), Hcr.
  replace ((Size.Width (SourceSize t) <=? 0) || (Size.Height (SourceSize t) <=? 0))
    with true by (symmetry; apply orb_true_iff; rewrite !Z.leb_le; lia).
  simpl.
  destruct (strings_Contains (FileName t) "/").
  - rewrite Hmk by reflexivity. simpl. split; [reflexivity|apply lookup_insert_eq].
  - simpl. split; [reflexivity|apply lookup_insert_eq].
Qed.

Lemma empty_canvas_leaves_empty_file_witness :
  snd (unpackTexture env_ok (mkUnpacker [] 1) tex_empty (Some sheet2x2) world0)
    = Return (Some (Errorf "failed to encode sprite as png"
                      (png_FormatError (Size.Width (SourceSize tex_empty))
                                       (Size.Height (SourceSize tex_empty))))) /\
  files (fst (unpackTexture env_ok (mkUnpacker [] 1) tex_empty (Some sheet2x2) world0))
    !! outputPath env_ok (mkUnpacker [] 1) tex_empty = Some None.
Proof.
  apply (empty_canvas_leaves_empty_file env_ok (mkUnpacker [] 1) tex_empty sheet2x2 world0).
  - unfold Size_ok. simpl. lia.
  - left. reflexivity.
  - intros _. reflexivity.
  - reflexivity.
Defined.

Lemma mkdir_idemp (p : string) (w : World) : mkdir p (mkdir p w) = mkdir p w.
Proof.
  unfold mkdir. simpl. f_equal.
  rewrite (assoc_L (∪)), (idemp_L (∪)). reflexivity.
Qed.

Lemma write_file_twice (p : string) (c c' : option image.RGBA) (w : World) :
  write_file p c (write_file p c' w) = write_file p c w.
Proof. unfold write_file. simpl. f_equal. apply insert_insert_eq. Qed.

Lemma mkdir_write_file (p q : string) (c : option image.RGBA) (w : World) :
  mkdir p (write_file q c w) = write_file q c (mkdir p w).
Proof. reflexivity. Qed.

(** X6: running [unpackTexture] again on what it left changes nothing: the
    same outcome, and the directories and files are those of the first
    run. *)
Theorem unpackTexture_idempotent (env : Env) (u : Unpacker) (t : Texture)
    (img : option image.Image) (w : World) :
  unpackTexture env u t img (fst (unpackTexture env u t img w))
  = unpackTexture env u t img w.
Proof.
  unfold unpackTexture.
  destruct (unpackTexture_sprite t img) as [s|]; [|reflexivity].
  destruct (strings_Contains (FileName t) "/");
    [destruct (os_MkdirAll env (subDir env u t))|]; simpl; try reflexivity;
    destruct (os_Create env (outputPath env u t)); simpl;
    rewrite ?mkdir_idemp; try reflexivity;
    destruct (png_Encode env (outputPath env u t) s); simpl;
    rewrite ?mkdir_write_file, ?mkdir_idemp, ?write_file_twice; try reflexivity;
    destruct (File_Close env (outputPath env u t)); simpl;
    rewrite ?mkdir_write_file, ?mkdir_idemp, ?write_file_twice; reflexivity.
Qed.

Lemma unpackTexture_dirs (env : Env) (u : Unpacker) (t : Texture)
    (img : option image.Image) (w : World) :
  dirs (fst (unpackTexture env u t img w)) = dirs w \/
  dirs (fst (unpackTexture env u t img w)) = {[subDir env u t]} ∪ dirs w.
Proof.
  unfold unpackTexture.
  destruct (unpackTexture_sprite t img) as [s|]; [|left; reflexivity].
  destruct (strings_Contains (FileName t) "/");
    [destruct (os_MkdirAll env (subDir env u t))|]; simpl;
    try (left; reflexivity);
    destruct (os_Create env (outputPath env u t)); simpl;
    try (left; reflexivity); try (right; reflexivity);
    destruct (png_Encode env (outputPath env u t) s); simpl;
    try destruct (File_Close env (outputPath env u t)); simpl;
    (left; reflexivity) || (right; reflexivity).
Qed.

Lemma unpackTexture_keeps_files (env : Env) (u : Unpacker) (t : Texture)
    (img : option image.Image) (w : World) (q : string) :
  is_Some (files w !! q) -> is_Some (files (fst (unpackTexture env u t img w)) !! q).
Proof.
  intros Hq. destruct (decide (q = outputPath env u t)) as [->|Hne];
    [|rewrite unpackTexture_frame by exact Hne; exact Hq].
  unfold unpackTexture.
  destruct (unpackTexture_sprite t img) as [s|]; [|exact Hq].
  destruct (strings_Contains (FileName t) "/");
    [destruct (os_MkdirAll env (subDir env u t))|]; simpl; try exact Hq;
    destruct (os_Create env (outputPath env u t)); simpl; try exact Hq;
    destruct (png_Encode env (outputPath env u t) s); simpl;
    try destruct (File_Close env (outputPath env u t)); simpl;
    rewrite lookup_insert_eq; eauto.
Qed.




(** ** [unpackSheet]: the pool's accounts *)

Lemma results_of_app (h1 h2 : list Event) :
  results_of (h1 ++ h2) = results_of h1 ++ results_of h2.
Proof.
  induction h1 as [|e h1 IH]; simpl; [reflexivity|].
  destruct e as [| |tex img [|err]]; simpl; rewrite IH; reflexivity.
Qed.

Lemma results_of_length (env : Env) (u : Unpacker) (h : list Event) :
  Forall (event_ok env u) h -> length (results_of h) = length (unpacked h).
Proof.
  induction 1 as [|e h He _ IH]; simpl; [reflexivity|].
  destruct e as [| |tex img [|err]]; simpl; try exact IH.
  - destruct He as [_ He]. congruence.
  - rewrite IH. reflexivity.
Qed.

Lemma first_error_None (l : list (option error)) :
  first_error l = None <-> Forall (fun x => x = None) l.
Proof.
  induction l as [|[e|] l IH]; simpl.
  - split; [constructor|reflexivity].
  - split; [discriminate|]. intros H. inversion H. discriminate.
  - rewrite IH. split; [intros H; constructor; [reflexivity|exact H]|].
    intros H. inversion H. assumption.
Qed.

Lemma first_error_Some (l : list (option error)) (e : error) :
  first_error l = Some e -> Some e ∈ l.
Proof.
  induction l as [|[e'|] l IH]; simpl; [discriminate| |].
  - intros [= ->]. apply list_elem_of_here.
  - intros H. apply list_elem_of_further, IH, H.
Qed.

Lemma results_of_elem (h : list Event) (x : option error) :
  x ∈ results_of h <-> exists tex img, EvUnpack tex img (Return x) ∈ h.
Proof.
  induction h as [|e h IH]; simpl.
  - split; [intros H; inversion H|intros (? & ? & H); inversion H].
  - destruct e as [p|p|tex img [|err]]; simpl;
      try (rewrite IH; split; intros (tex' & img' & H); exists tex', img';
           [apply list_elem_of_further, H
           |apply elem_of_cons in H as [H|H]; [discriminate|exact H]]).
    rewrite elem_of_cons, IH. split.
    + intros [->|(tex' & img' & H)].
      * exists tex, img. apply list_elem_of_here.
      * exists tex', img'. apply list_elem_of_further, H.
    + intros (tex' & img' & H). apply elem_of_cons in H as [[= _ _ ->]|H]; eauto.
Qed.

Section SheetAccounts.
Variables (env : Env) (u : Unpacker) (sheet : Sheet).

Lemma results_inv_move (s s' : World * SheetRun) :
  results_inv env u sheet (snd s) -> sheet_move env u sheet s s' ->
  results_inv env u sheet (snd s').
Proof.
  intros Hi Hm. unfold results_inv in *.
  inversion Hm; subst; simpl in *;
    try match goal with H : snd _ = _ |- _ => rename H into Hout end.
  - intros img Ho. congruence.
  - intros img _ Hd. congruence.
  - rewrite Hi. simpl. split; [repeat constructor|reflexivity].
  - exact Hi.
  - exact Hi.
  - exact I.
  - destruct Hi as [Hf ->]. split.
    + apply Forall_app. split; [exact Hf|]. repeat constructor.
      * rewrite <- Hout. apply unpackTexture_outcome_indep.
      * discriminate.
    + rewrite results_of_app. reflexivity.
  - destruct Hi as [Hf ->]. split.
    + apply Forall_app. split; [exact Hf|]. repeat constructor.
      * rewrite <- Hout. apply unpackTexture_outcome_indep.
      * discriminate.
    + rewrite results_of_app. reflexivity.
  - destruct Hi as [Hf ->]. intros img' _ _. auto.
Qed.

Lemma accounted_inv_move (s s' : World * SheetRun) :
  pool_inv env u sheet (snd s) -> accounted_inv sheet (snd s) ->
  sheet_move env u sheet s s' -> accounted_inv sheet (snd s').
Proof.
  intros Hp Ha Hm. unfold accounted_inv in *.
  assert (Hbusy : forall w h img jobs ws res k tex o,
             s = (w, {| st := SPool img jobs ws res; hist := h |}) ->
             ws !! k = Some (Busy tex) ->
             exists rest, Textures sheet ≡ₚ unpacked (h ++ [EvUnpack tex img o]) ++ rest).
  { intros w h img jobs ws res k tex o -> Hk.
    unfold pool_inv in Hp. simpl in Hp. destruct Hp as (_ & Hperm & _).
    apply busy_lookup, elem_of_Permutation in Hk as [b' Hb].
    exists (b' ++ jobs). rewrite Hperm, Hb, unpacked_app. simpl.
    rewrite <- app_assoc. reflexivity. }
  inversion Hm; subst; simpl in *;
    try (eapply Hbusy; [reflexivity|eassumption]);
    try (rewrite unpacked_app; simpl; rewrite app_nil_r); exact Ha.
Qed.

Lemma accounts_exec (cs : list SheetChoice) (w0 : World) (s' : World * SheetRun) :
  exec (unpackSheet_step env u sheet) cs (w0, run0) = Some s' ->
  pool_inv env u sheet (snd s') /\ accounted_inv sheet (snd s') /\
  results_inv env u sheet (snd s').
Proof.
  apply (exec_invariant (unpackSheet_step env u sheet)
           (fun s => pool_inv env u sheet (snd s) /\ accounted_inv sheet (snd s) /\
                     results_inv env u sheet (snd s))).
  - intros c s s2 (H1 & H2 & H3) Hs. apply step_move in Hs.
    split; [eapply pool_inv_move; eauto|].
    split; [eapply accounted_inv_move; eauto|eapply results_inv_move; eauto].
  - split; [reflexivity|]. split; [|reflexivity].
    exists (Textures sheet). reflexivity.
Qed.
End SheetAccounts.

Lemma unpacked_elem (h : list Event) (tex : Texture) :
  tex ∈ unpacked h <-> exists img o, EvUnpack tex img o ∈ h.
Proof.
  induction h as [|e h IH]; simpl.
  - split; [intros H; inversion H|intros (? & ? & H); inversion H].
  - destruct e as [p|p|tex' img' o']; simpl;
      try (rewrite IH; split; intros (img & o & H); exists img, o;
           [apply list_elem_of_further, H
           |apply elem_of_cons in H as [H|H]; [discriminate|exact H]]).
    rewrite elem_of_cons, IH. split.
    + intros [->|(img & o & H)].
      * exists img', o'. apply list_elem_of_here.
      * exists img, o. apply list_elem_of_further, H.
    + intros (img & o & H). apply elem_of_cons in H as [[= -> _ _]|H]; eauto.
Qed.

(** The image in the events of a pipeline whose sheet decoded. *)
Lemma events_image (env : Env) (u : Unpacker) (sheet : Sheet)
    (cs : list SheetChoice) (w0 w' : World) (r : SheetRun) (img : image.Image) :
  exec (unpackSheet_step env u sheet) cs (w0, run0) = Some (w', r) ->
  image_Decode env (sheetPath env u sheet) = inr img ->
  forall tex img' o, EvUnpack tex img' o ∈ hist r -> img' = img.
Proof.
  intros He Hd tex img' o Hin.
  destruct cs as [|c cs].
  - injection He as <- <-. inversion Hin.
  - cbn [exec] in He.
    destruct (unpackSheet_step env u sheet c (w0, run0)) as [s1|] eqn:E1; [|discriminate].
    destruct (started_inv_first env u sheet c w0 s1 E1) as [-> Hi1].
    assert (Hi : started_inv env u sheet w0 (w', r)).
    { apply (exec_invariant (unpackSheet_step env u sheet) (started_inv env u sheet w0))
        with (cs := cs) (s := s1); [|exact Hi1|exact He].
      intros c s s2 Hs Hst. eapply started_inv_move; [exact Hs|]. eapply step_move; eauto. }
    unfold started_inv in Hi. simpl in Hi.
    assert (Hh : (exists img0 h, image_Decode env (sheetPath env u sheet) = inr img0 /\
                   hist r = EvOpen (sheetPath env u sheet)
                            :: EvDecode (sheetPath env u sheet) :: h /\
                   Forall (is_unpack_of img0) h)
                 \/ unpacked (hist r) = []).
    { destruct (st r).
      - contradiction.
      - destruct Hi as (_ & Hd' & h & Hh & Hf). left. eauto.
      - destruct Hi as [(err & _ & -> & _)|[(err & _ & _ & -> & _)|(_ & img0 & h & ? & ? & ?)]];
          [right; reflexivity|right; reflexivity|left; eauto].
      - destruct Hi as (_ & img0 & h & ? & ? & ?). left. eauto. }
    destruct Hh as [(img0 & h & Hd0 & Hh & Hf)|Hnil].
    + rewrite Hd in Hd0. injection Hd0 as <-. rewrite Hh in Hin.
      apply elem_of_cons in Hin as [Hin|Hin]; [discriminate|].
      apply elem_of_cons in Hin as [Hin|Hin]; [discriminate|].
      destruct (count_unpack_only img h Hf) as (_ & _ & Himg). eapply Himg, Hin.
    + assert (Ht : tex ∈ unpacked (hist r)) by (apply unpacked_elem; eauto).
      rewrite Hnil in Ht. inversion Ht.
Qed.

(** X9: every texture of the sheet is, at every moment, in exactly one
    place: through [unpackTexture], in the hands of a busy worker, or still
    to be handed over.  In particular no texture is extracted more often
    than the sheet lists it, whatever the schedule and however the pool
    ends. *)
Theorem each_texture_at_most_once (env : Env) (u : Unpacker) (sheet : Sheet)
    (cs : list SheetChoice) (w0 w' : World) (r : SheetRun) :
  exec (unpackSheet_step env u sheet) cs (w0, run0) = Some (w', r) ->
  (exists rest, Textures sheet ≡ₚ unpacked (hist r) ++ rest) /\
  (forall img jobs ws res,
      st r = SPool img jobs ws res ->
      Textures sheet ≡ₚ unpacked (hist r) ++ busy ws ++ jobs).
Proof.
  intros He. destruct (accounts_exec env u sheet cs w0 (w', r) He) as (Hp & Ha & _).
  split; [exact Ha|].
  intros img jobs ws res Hst. simpl in Hp. unfold pool_inv in Hp. rewrite Hst in Hp.
  tauto.
Qed.

Lemma each_texture_at_most_once_witness :
  (exists rest,
      Textures sheet_two
      ≡ₚ unpacked (hist {| st := SPool sheet2x2 [tex_trimmed] [Busy tex_plain; Ready] [];
                           hist := [EvOpen "in/two.webp"; EvDecode "in/two.webp"] |}) ++ rest) /\
  (forall img jobs ws res,
      st {| st := SPool sheet2x2 [tex_trimmed] [Busy tex_plain; Ready] [];
            hist := [EvOpen "in/two.webp"; EvDecode "in/two.webp"] |}
        = SPool img jobs ws res ->
      Textures sheet_two
      ≡ₚ unpacked (hist {| st := SPool sheet2x2 [tex_trimmed] [Busy tex_plain; Ready] [];
                           hist := [EvOpen "in/two.webp"; EvDecode "in/two.webp"] |})
         ++ busy ws ++ jobs).
Proof.
  apply (each_texture_at_most_once env_ok (mkUnpacker [sheet_two] 2) sheet_two
           [CStart; CWorker 0] world0 world0).
  vm_compute. reflexivity.
Defined.

(** X10: the buffered channel [results] never holds more than its capacity.
    While the pool runs it holds one result per finished call, and the
    finished calls, the busy workers and the textures still to hand over add
    up to the number of textures of the sheet, the capacity the channel is
    made with: a worker's send never blocks. *)
Theorem results_within_capacity (env : Env) (u : Unpacker) (sheet : Sheet)
    (cs : list SheetChoice) (w0 w' : World) (r : SheetRun)
    (img : image.Image) (jobs : list Texture) (ws : list WorkerState)
    (res : list (option error)) :
  exec (unpackSheet_step env u sheet) cs (w0, run0) = Some (w', r) ->
  st r = SPool img jobs ws res ->
  length res = length (unpacked (hist r)) /\
  (length res + length (busy ws) + length jobs = length (Textures sheet))%nat /\
  (length res <= length (Textures sheet))%nat.
Proof.
  intros He Hst. destruct (accounts_exec env u sheet cs w0 (w', r) He) as (Hp & _ & Hr).
  simpl in Hp, Hr. unfold pool_inv in Hp. unfold results_inv in Hr. rewrite Hst in Hp, Hr.
  destruct Hp as (_ & Hperm & _). destruct Hr as [Hf ->].
  apply Permutation_length in Hperm. rewrite !length_app in Hperm.
  rewrite (results_of_length env u _ Hf). lia.
Qed.

Lemma results_within_capacity_witness :
  length [@None error] = length (unpacked [EvOpen "in/two.webp"; EvDecode "in/two.webp";
                                           EvUnpack tex_plain sheet2x2 (Return None)]) /\
  (length [@None error] + length (busy [Ready; Ready]) + length [tex_trimmed]
   = length (Textures sheet_two))%nat /\
  (length [@None error] <= length (Textures sheet_two))%nat.
Proof.
  apply (results_within_capacity env_ok (mkUnpacker [sheet_two] 2) sheet_two
           [CStart; CWorker 0; CWorker 0] world0
           (fst (unpackTexture env_ok (mkUnpacker [sheet_two] 2) tex_plain
                   (Some sheet2x2) world0))
           {| st := SPool sheet2x2 [tex_trimmed] [Ready; Ready] [None];
              hist := [EvOpen "in/two.webp"; EvDecode "in/two.webp";
                       EvUnpack tex_plain sheet2x2 (Return None)] |}
           sheet2x2 [tex_trimmed] [Ready; Ready] [None]).
  - vm_compute. reflexivity.
  - reflexivity.
Defined.

(** X11: what [unpackSheet] returns once the sheet has decoded.  It is the
    first error on the results channel, that is, the error of the first
    call of [unpackTexture], in order of completion, that failed; that call
    was made on a texture of the sheet with the decoded image.  It is nil
    exactly when every call made returned nil. *)
Theorem sheet_returns_first_failure (env : Env) (u : Unpacker) (sheet : Sheet)
    (cs : list SheetChoice) (w0 w' : World) (r : SheetRun)
    (ret : option error) (img : image.Image) :
  exec (unpackSheet_step env u sheet) cs (w0, run0) = Some (w', r) ->
  st r = SDone ret ->
  os_Open env (sheetPath env u sheet) = None ->
  image_Decode env (sheetPath env u sheet) = inr img ->
  ret = first_error (results_of (hist r)) /\
  (ret = None <-> forall tex i o, EvUnpack tex i o ∈ hist r -> o = Return None) /\
  (forall e, ret = Some e ->
     exists tex,
       tex ∈ Textures sheet /\
       EvUnpack tex img (Return (Some e)) ∈ hist r /\
       forall w, snd (unpackTexture env u tex (Some img) w) = Return (Some e)).
Proof.
  intros He Hst Ho Hd.
  destruct (accounts_exec env u sheet cs w0 (w', r) He) as (_ & (rest & Ha) & Hr).
  simpl in Hr, Ha. unfold results_inv in Hr. rewrite Hst in Hr.
  destruct (Hr img Ho Hd) as [Hf ->]. split; [reflexivity|]. split.
  - rewrite first_error_None, Forall_forall. split.
    + intros Hn tex i o Hin.
      rewrite Forall_forall in Hf. pose proof (Hf _ Hin) as [_ Hnp].
      destruct o as [|x]; [congruence|]. f_equal. apply Hn.
      apply results_of_elem. eauto.
    + intros Hall x Hx. apply results_of_elem in Hx as (tex & i & Hin).
      specialize (Hall _ _ _ Hin). congruence.
  - intros e Hfe. apply first_error_Some, results_of_elem in Hfe as (tex & i & Hin).
    assert (i = img) as -> by (eapply events_image; eauto).
    exists tex. split; [|split; [exact Hin|]].
    + rewrite Ha, elem_of_app. left. apply unpacked_elem. eauto.
    + intros w. rewrite Forall_forall in Hf. destruct (Hf _ Hin) as [Hout _].
      rewrite Hout. apply unpackTexture_outcome_indep.
Qed.

Lemma sheet_returns_first_failure_witness :
  Some err_empty = first_error (results_of (hist run_empty_plain)) /\
  (Some err_empty = None <->
   forall tex i o, EvUnpack tex i o ∈ hist run_empty_plain -> o = Return None) /\
  (forall e, Some err_empty = Some e ->
     exists tex,
       tex ∈ Textures sheet_empty_plain /\
       EvUnpack tex sheet2x2 (Return (Some e)) ∈ hist run_empty_plain /\
       forall w, snd (unpackTexture env_ok (mkUnpacker [sheet_empty_plain] 1) tex
                        (Some sheet2x2) w) = Return (Some e)).
Proof.
  apply (sheet_returns_first_failure env_ok (mkUnpacker [sheet_empty_plain] 1)
           sheet_empty_plain [CStart; CWorker 0; CWorker 0; CWait]
           world0 (write_file "out/empty.png" None world0) run_empty_plain
           (Some err_empty) sheet2x2).
  - vm_compute. reflexivity.
  - reflexivity.
  - reflexivity.
  - reflexivity.
Defined.

(** ** [unpackSheet]: no workers *)

Section NoWorkers.
Variables (env : Env) (u : Unpacker) (sheet : Sheet).
Hypothesis Hnone : Workers u <= 0.

Lemma idle_inv_move (w0 : World) (s s' : World * SheetRun) :
  idle_inv env u sheet w0 s -> sheet_move env u sheet s s' ->
  idle_inv env u sheet w0 s'.
Proof.
  intros (Hw & Hu & Hi) Hm. unfold idle_inv.
  inversion Hm; subst; simpl in *;
    try match goal with
      | H : _ !! _ = Some _ |- _ => destruct Hi as [-> _]; discriminate H
      end;
    rewrite ?unpacked_app; simpl; rewrite ?app_nil_r.
  - split; [reflexivity|]. split; [exact Hu|]. intros Ho. congruence.
  - split; [reflexivity|]. split; [exact Hu|]. intros _ img Hd. congruence.
  - split; [reflexivity|]. split; [exact Hu|].
    rewrite Z2Nat.nonpos by exact Hnone. auto.
  - split; [reflexivity|]. split; [exact Hu|]. destruct Hi as [_ ->]. auto.
Qed.
End NoWorkers.

(** X12: with a worker count of zero or less (the flag accepts any integer)
    a sheet that decodes is "unpacked" without a single texture being
    touched: on every schedule nothing goes through [unpackTexture] and no
    file is written, and [unpackSheet] returns nil, as the schedule with
    its two moves shows. *)
Theorem no_workers_no_work (env : Env) (u : Unpacker) (sheet : Sheet)
    (img : image.Image) (w0 : World) :
  Workers u <= 0 ->
  os_Open env (sheetPath env u sheet) = None ->
  image_Decode env (sheetPath env u sheet) = inr img ->
  exec (unpackSheet_step env u sheet) [CStart; CWait] (w0, run0)
    = Some (w0, {| st := SDone None;
                   hist := [EvOpen (sheetPath env u sheet);
                            EvDecode (sheetPath env u sheet)] |}) /\
  forall cs w' r,
    exec (unpackSheet_step env u sheet) cs (w0, run0) = Some (w', r) ->
    w' = w0 /\ unpacked (hist r) = [] /\
    (forall ret, st r = SDone ret -> ret = None).
Proof.
  intros Hnone Ho Hd. split.
  - cbn [exec]. unfold unpackSheet_step at 1. simpl. rewrite Ho, Hd.
    rewrite Z2Nat.nonpos by exact Hnone. reflexivity.
  - intros cs w' r He.
    assert (Hi : idle_inv env u sheet w0 (w', r)).
    { apply (exec_invariant (unpackSheet_step env u sheet) (idle_inv env u sheet w0))
        with (cs := cs) (s := (w0, run0)); [| |exact He].
      - intros c s s2 Hs Hst. eapply idle_inv_move; eauto. eapply step_move; eauto.
      - unfold idle_inv. simpl. auto. }
    destruct Hi as (Hw & Hu & Hi). simpl in *.
    split; [exact Hw|]. split; [exact Hu|].
    intros ret Hst. rewrite Hst in Hi. eapply Hi; eauto.
Qed.

Lemma no_workers_no_work_witness :
  exec (unpackSheet_step env_ok (mkUnpacker [sheet_two] 0) sheet_two)
    [CStart; CWait] (world0, run0)
    = Some (world0,
            {| st := SDone None;
               hist := [EvOpen (sheetPath env_ok (mkUnpacker [sheet_two] 0) sheet_two);
                        EvDecode (sheetPath env_ok (mkUnpacker [sheet_two] 0) sheet_two)] |}) /\
  forall cs w' r,
    exec (unpackSheet_step env_ok (mkUnpacker [sheet_two] 0) sheet_two) cs (world0, run0)
      = Some (w', r) ->
    w' = world0 /\ unpacked (hist r) = [] /\
    (forall ret, st r = SDone ret -> ret = None).
Proof.
  apply (no_workers_no_work env_ok (mkUnpacker [sheet_two] 0) sheet_two sheet2x2 world0).
  - simpl. lia.
  - reflexivity.
  - reflexivity.
Defined.

(** ** [unpackSheet]: a pool that drains *)



(** ** [unpackSheet] comes to an end *)

Lemma exec_length {S C : Type} (step : C -> S -> option S) (mu : S -> nat) :
  (forall c s s', step c s = Some s' -> (mu s' < mu s)%nat) ->
  forall cs s s', exec step cs s = Some s' -> (length cs + mu s' <= mu s)%nat.
Proof.
  intros Hdec. induction cs as [|c cs IH]; intros s s' He; simpl in *.
  - injection He as <-. lia.
  - destruct (step c s) as [s1|] eqn:E; [|discriminate].
    specialize (IH _ _ He). specialize (Hdec _ _ _ E). lia.
Qed.

(** X14: the pool cannot run for ever and cannot get stuck.  A schedule has
    at most [2 * textures + workers + 2] moves, and from wherever a schedule
    has taken the pipeline some further moves take it to its end:
    [unpackSheet] returns, or a call of [unpackTexture] panics. *)
Theorem sheet_pipeline_ends (env : Env) (u : Unpacker) (sheet : Sheet)
    (cs : list SheetChoice) (w0 : World) (s : World * SheetRun) :
  exec (unpackSheet_step env u sheet) cs (w0, run0) = Some s ->
  (length cs <= 2 * length (Textures sheet) + Z.to_nat (Workers u) + 2)%nat /\
  exists cs' s', exec (unpackSheet_step env u sheet) cs' s = Some s' /\ sheet_final s'.
Proof.
  intros He. split.
  - pose proof (exec_length (unpackSheet_step env u sheet)
                  (fun s => sheet_mu u sheet (snd s))) as Hl.
    specialize (Hl (fun c s1 s2 Hs => sheet_mu_move env u sheet s1 s2
                                        (step_move env u sheet c s1 s2 Hs))).
    specialize (Hl cs (w0, run0) s He). unfold sheet_mu at 2 in Hl. simpl in Hl. lia.
  - apply (exec_reaches_final (unpackSheet_step env u sheet) (fun _ => True) sheet_final
             (fun s => sheet_mu u sheet (snd s))); [auto| | |exact I].
    + intros [w r] _.
      destruct (st r) as [|img jobs ws res|ret|] eqn:Hst.
      * right. destruct (sheet_progress env u sheet w r) as (c & s' & Hs);
          [rewrite Hst; discriminate|rewrite Hst; discriminate|].
        exists c, s'. exact Hs.
      * right. destruct (sheet_progress env u sheet w r) as (c & s' & Hs);
          [rewrite Hst; discriminate|rewrite Hst; discriminate|].
        exists c, s'. exact Hs.
      * left. left. exists ret. exact Hst.
      * left. right. exact Hst.
    + intros c s1 s2 _ Hs. eapply sheet_mu_move, step_move, Hs.
Qed.

Lemma sheet_pipeline_ends_witness :
  (length [CStart; CWorker 0]
   <= 2 * length (Textures sheet_two) + Z.to_nat (Workers (mkUnpacker [sheet_two] 2)) + 2)%nat /\
  exists cs' s',
    exec (unpackSheet_step env_ok (mkUnpacker [sheet_two] 2) sheet_two) cs'
      (world0, {| st := SPool sheet2x2 [tex_trimmed] [Busy tex_plain; Ready] [];
                  hist := [EvOpen "in/two.webp"; EvDecode "in/two.webp"] |}) = Some s' /\
    sheet_final s'.
Proof.
  apply (sheet_pipeline_ends env_ok (mkUnpacker [sheet_two] 2) sheet_two
           [CStart; CWorker 0] world0).
  vm_compute. reflexivity.
Defined.

(** ** [unpack]: the error slot and the files *)

Lemma unpack_step_captured (env : Env) (u : Unpacker) (c : PackChoice) (s s' : PackState) :
  unpack_step env u c s = Some s' ->
  (captured s' = captured s /\ firstErr s' = firstErr s) \/
  (exists err, captured s' = captured s ++ [err] /\
               firstErr s' = match firstErr s with None => Some err | Some e => Some e end).
Proof.
  unfold unpack_step.
  destruct (returned s); [discriminate|].
  destruct (existsb panicked (goroutines s)); [discriminate|].
  destruct c as [i c'|i|].
  - destruct (goroutines s !! i) as [g|]; [|discriminate].
    destruct (unpackSheet_step env u (sheet_of g) c' (world s, run g)) as [[w' r']|];
      [|discriminate].
    intros [= <-]. left. auto.
  - destruct (goroutines s !! i) as [g|]; [|discriminate].
    destruct (joined g); [discriminate|].
    destruct (st (run g)) as [| |[err|]|]; try discriminate; intros [= <-]; simpl.
    + right. eauto.
    + left. auto.
  - destruct (forallb joined (goroutines s)); [|discriminate].
    intros [= <-]. left. auto.
Qed.

(** X15: the error slot keeps the first error.  Once [firstErr] holds an
    error no later move changes it, whatever the other sheets return, and
    the errors captured are only ever added to. *)
Theorem first_error_kept (env : Env) (u : Unpacker) (cs : list PackChoice)
    (s s' : PackState) (e : error) :
  exec (unpack_step env u) cs s = Some s' ->
  firstErr s = Some e ->
  firstErr s' = Some e /\ exists more, captured s' = captured s ++ more.
Proof.
  intros He Hfe.
  apply (exec_invariant (unpack_step env u)
           (fun x => firstErr x = Some e /\ exists more, captured x = captured s ++ more))
    with (cs := cs) (s := s); [| |exact He].
  - intros c x x' [Hx (more & Hm)] Hs.
    destruct (unpack_step_captured env u c x x' Hs) as [[Hc Hf]|(err & Hc & Hf)].
    + rewrite Hf, Hc. eauto.
    + rewrite Hf, Hx, Hc, Hm. split; [reflexivity|].
      exists (more ++ [err]). rewrite app_assoc. reflexivity.
  - split; [exact Hfe|]. exists []. rewrite app_nil_r. reflexivity.
Qed.

Lemma first_error_kept_witness :
  firstErr pack_end
    = Some (Errorf "failed to open texture sheet" (EnvError "no such file or directory")) /\
  exists more, captured pack_end = captured pack_mid ++ more.
Proof.
  apply (first_error_kept env_missing unpacker_two schedule_rest pack_mid pack_end).
  - vm_compute. reflexivity.
  - vm_compute. reflexivity.
Defined.

Lemma sheet_move_world (env : Env) (u : Unpacker) (sheet : Sheet)
    (s s' : World * SheetRun) :
  sheet_move env u sheet s s' ->
  fst s' = fst s \/
  exists tex img, fst s' = fst (unpackTexture env u tex (Some img) (fst s)).
Proof. intros Hm. inversion Hm; subst; simpl; eauto. Qed.

Lemma unpack_step_world (env : Env) (u : Unpacker) (c : PackChoice) (s s' : PackState) :
  unpack_step env u c s = Some s' ->
  world s' = world s \/
  exists tex img, world s' = fst (unpackTexture env u tex (Some img) (world s)).
Proof.
  unfold unpack_step.
  destruct (returned s); [discriminate|].
  destruct (existsb panicked (goroutines s)); [discriminate|].
  destruct c as [i c'|i|].
  - destruct (goroutines s !! i) as [g|]; [|discriminate].
    destruct (unpackSheet_step env u (sheet_of g) c' (world s, run g)) as [[w' r']|] eqn:Hst;
      [|discriminate].
    intros [= <-]. simpl.
    apply step_move, sheet_move_world in Hst. exact Hst.
  - destruct (goroutines s !! i) as [g|]; [|discriminate].
    destruct (joined g); [discriminate|].
    destruct (st (run g)) as [| |[err|]|]; try discriminate; intros [= <-]; auto.
  - destruct (forallb joined (goroutines s)); [|discriminate].
    intros [= <-]. auto.
Qed.

(** X16: a run of [unpack] removes nothing.  Every file and every directory
    present at some moment is present at every later moment (a file may be
    truncated or rewritten, never deleted); output written before an error
    stays in place. *)
Theorem unpack_never_deletes (env : Env) (u : Unpacker) (cs : list PackChoice)
    (s s' : PackState) :
  exec (unpack_step env u) cs s = Some s' ->
  (forall q, is_Some (files (world s) !! q) -> is_Some (files (world s') !! q)) /\
  dirs (world s) ⊆ dirs (world s').
Proof.
  intros He.
  apply (exec_invariant (unpack_step env u)
           (fun x => (forall q, is_Some (files (world s) !! q) ->
                                is_Some (files (world x) !! q)) /\
                     dirs (world s) ⊆ dirs (world x)))
    with (cs := cs) (s := s); [| |exact He].
  - intros c x x' [Hf Hd] Hs.
    destruct (unpack_step_world env u c x x' Hs) as [->|(tex & img & ->)];
      [split; assumption|].
    split.
    + intros q Hq. apply unpackTexture_keeps_files, Hf, Hq.
    + etransitivity; [exact Hd|].
      destruct (unpackTexture_dirs env u tex (Some img) (world x)) as [-> | ->];
        [reflexivity|apply union_subseteq_r].
  - split; [auto|reflexivity].
Qed.

Lemma unpack_never_deletes_witness :
  (forall q, is_Some (files (world pack_mid) !! q) ->
             is_Some (files (world pack_end) !! q)) /\
  dirs (world pack_mid) ⊆ dirs (world pack_end).
Proof.
  apply (unpack_never_deletes env_missing unpacker_two schedule_rest pack_mid pack_end).
  vm_compute. reflexivity.
Defined.

(** ** [unpack] comes to an end *)

Lemma pack_mu_init (env : Env) (u : Unpacker) (w0 : World) :
  (pack_mu u (unpack_init env u w0) <= pack_bound u (Sheets (Pack_ u)))%nat.
Proof.
  unfold unpack_init, pack_mu.
  destruct (os_MkdirAll env (OutputDir u)); simpl; [lia|].
  induction (Sheets (Pack_ u)) as [|sh l IH]; simpl; [lia|].
  unfold goroutine_mu at 1. unfold sheet_mu. simpl. lia.
Qed.



(** ** [unpack]: what is on disk at the end *)

Lemma NoDup_concat_sub {A B : Type} (f : A -> B) (ls : list (list A)) (i : nat)
    (l : list A) :
  NoDup (f <$> concat ls) -> ls !! i = Some l -> NoDup (f <$> l).
Proof.
  revert i. induction ls as [|l0 ls IH]; intros i Hnd Hi; [discriminate|].
  simpl in Hnd. rewrite fmap_app in Hnd. apply NoDup_app in Hnd as (H1 & _ & H2).
  destruct i as [|i]; simpl in Hi.
  - injection Hi as <-. exact H1.
  - eapply IH; eauto.
Qed.

Lemma elem_of_concat_lookup {A : Type} (ls : list (list A)) (i : nat) (l : list A) (x : A) :
  ls !! i = Some l -> x ∈ l -> x ∈ concat ls.
Proof.
  revert i. induction ls as [|l0 ls IH]; intros i Hi Hx; [discriminate|].
  simpl. rewrite elem_of_app. destruct i as [|i]; simpl in Hi.
  - injection Hi as <-. auto.
  - right. eapply IH; eauto.
Qed.

Lemma NoDup_concat_distinct {A B : Type} (f : A -> B) (ls : list (list A)) (i j : nat)
    (l1 l2 : list A) (x y : A) :
  NoDup (f <$> concat ls) -> ls !! i = Some l1 -> ls !! j = Some l2 -> i <> j ->
  x ∈ l1 -> y ∈ l2 -> f x <> f y.
Proof.
  revert i j. induction ls as [|l0 ls IH]; intros i j Hnd Hi Hj Hne Hx Hy; [discriminate|].
  simpl in Hnd. rewrite fmap_app in Hnd. apply NoDup_app in Hnd as (_ & Hd & Hnd).
  destruct i as [|i], j as [|j]; simpl in Hi, Hj.
  - congruence.
  - injection Hi as <-. intros Heq.
    apply (Hd (f x)); [apply list_elem_of_fmap_2, Hx|].
    rewrite Heq. apply list_elem_of_fmap_2. eapply elem_of_concat_lookup; eauto.
  - injection Hj as <-. intros Heq.
    apply (Hd (f y)); [apply list_elem_of_fmap_2, Hy|].
    rewrite <- Heq. apply list_elem_of_fmap_2. eapply elem_of_concat_lookup; eauto.
  - eapply IH; eauto.
Qed.

Lemma sheet_move_world_tex (env : Env) (u : Unpacker) (sheet : Sheet)
    (s s' : World * SheetRun) :
  pool_inv env u sheet (snd s) -> sheet_move env u sheet s s' ->
  fst s' = fst s \/
  exists tex img, tex ∈ Textures sheet /\
                  fst s' = fst (unpackTexture env u tex (Some img) (fst s)).
Proof.
  intros Hp Hm.
  assert (Hb : forall w h img jobs ws res k tex,
             s = (w, {| st := SPool img jobs ws res; hist := h |}) ->
             ws !! k = Some (Busy tex) -> tex ∈ Textures sheet).
  { intros w h img jobs ws res k tex -> Hk. unfold pool_inv in Hp. simpl in Hp.
    destruct Hp as (_ & Hperm & _). rewrite Hperm, !elem_of_app. right. left.
    eapply busy_lookup, Hk. }
  inversion Hm; subst; simpl; auto; right; exists tex, img;
    (split; [eapply Hb; [reflexivity|eassumption]|reflexivity]).
Qed.

Section PackFiles.
Variables (env : Env) (u : Unpacker) (w0 : World).
Hypothesis Hsize :
  forall sh t, sh ∈ Sheets (Pack_ u) -> t ∈ Textures sh -> Size_ok (SourceSize t).
Hypothesis Hnodup : NoDup (outputPath env u <$> all_textures u).

Lemma goroutine_sheet_lookup (s : PackState) (j : nat) (g : Goroutine) :
  sheet_of <$> goroutines s = Sheets (Pack_ u) -> goroutines s !! j = Some g ->
  (Textures <$> Sheets (Pack_ u)) !! j = Some (Textures (sheet_of g)).
Proof.
  intros Hsh Hj. rewrite <- Hsh, !list_lookup_fmap, Hj. reflexivity.
Qed.

Lemma accounted_elem (sheet : Sheet) (r : SheetRun) (t : Texture) :
  accounted_inv sheet r -> t ∈ unpacked (hist r) -> t ∈ Textures sheet.
Proof. intros (rest & Hp) Hin. rewrite Hp, elem_of_app. auto. Qed.

Lemma pack_files_inv_step (c : PackChoice) (s s' : PackState) :
  pack_inv env u s -> pack_files_inv env u w0 s ->
  unpack_step env u c s = Some s' -> pack_files_inv env u w0 s'.
Proof.
  intros (Hg & Hsh & _) [Hgo Hq]. unfold unpack_step.
  destruct (returned s); [discriminate|].
  destruct (existsb panicked (goroutines s)); [discriminate|].
  destruct c as [i c'|i|].
  - destruct (goroutines s !! i) as [g|] eqn:Hi; [|discriminate].
    destruct (unpackSheet_step env u (sheet_of g) c' (world s, run g)) as [[w' r']|] eqn:Hst;
      [|discriminate].
    intros [= <-]. unfold pack_files_inv. simpl.
    pose proof (Forall_lookup_1 _ _ _ _ Hg Hi) as (Hpi & _).
    destruct (Hgo i g Hi) as [Hacc Hfi].
    apply step_move in Hst as Hm.
    pose proof (goroutine_sheet_lookup s i g Hsh Hi) as Hli.
    assert (Hsi : sheet_of g ∈ Sheets (Pack_ u)) by (eapply sheet_of_elem; eauto).
    assert (Hw : w' = world s \/
                 exists tex img, tex ∈ Textures (sheet_of g) /\
                   w' = fst (unpackTexture env u tex (Some img) (world s)))
      by exact (sheet_move_world_tex env u (sheet_of g) (world s, run g) (w', r') Hpi Hm).
    split.
    + intros j gj Hj. destruct (decide (j = i)) as [->|Hne].
      * rewrite list_lookup_insert_eq in Hj by (eapply lookup_lt_Some; eauto).
        injection Hj as <-. simpl. split.
        -- exact (accounted_inv_move env u (sheet_of g) (world s, run g) (w', r')
                    Hpi Hacc Hm).
        -- apply (files_inv_move env u (sheet_of g) (fun t => Hsize (sheet_of g) t Hsi)
                    (NoDup_concat_sub _ _ _ _ Hnodup Hli) (world s, run g) (w', r'));
             assumption.
      * rewrite list_lookup_insert_ne in Hj by congruence.
        destruct (Hgo j gj Hj) as [Haj Hfj]. split; [exact Haj|].
        destruct Hw as [->|(tex & img & Htex & ->)]; [exact Hfj|].
        intros im t Hd Hin Hio. simpl in *.
        destruct (Hfj im t Hd Hin Hio) as (sp & Hsp & Hl).
        exists sp. split; [exact Hsp|].
        rewrite unpackTexture_frame; [exact Hl|].
        apply (NoDup_concat_distinct (outputPath env u) (Textures <$> Sheets (Pack_ u))
                 j i (Textures (sheet_of gj)) (Textures (sheet_of g)));
          [exact Hnodup|eapply goroutine_sheet_lookup; eauto|exact Hli|exact Hne| |exact Htex].
        eapply accounted_elem; eauto.
    + intros q Hne. destruct Hw as [->|(tex & img & Htex & ->)]; [apply Hq, Hne|].
      rewrite unpackTexture_frame; [apply Hq, Hne|].
      apply Hne. eapply elem_of_concat_lookup; eauto.
  - destruct (goroutines s !! i) as [g|] eqn:Hi; [|discriminate].
    destruct (joined g); [discriminate|].
    assert (Hins : forall j gj,
               <[i := {| sheet_of := sheet_of g; run := run g; joined := true |}]>
                 (goroutines s) !! j = Some gj ->
               accounted_inv (sheet_of gj) (run gj) /\
               files_inv env u (sheet_of gj) (world s, run gj)).
    { intros j gj Hj. destruct (decide (j = i)) as [->|Hne].
      - rewrite list_lookup_insert_eq in Hj by (eapply lookup_lt_Some; eauto).
        injection Hj as <-. simpl. apply (Hgo i g Hi).
      - rewrite list_lookup_insert_ne in Hj by congruence. apply (Hgo j gj Hj). }
    destruct (st (run g)) as [| |[err|]|]; try discriminate; intros [= <-];
      unfold pack_files_inv; simpl; auto.
  - destruct (forallb joined (goroutines s)); [|discriminate].
    intros [= <-]. unfold pack_files_inv. simpl. auto.
Qed.

Lemma pack_files_inv_init :
  os_MkdirAll env (OutputDir u) = None -> pack_files_inv env u w0 (unpack_init env u w0).
Proof.
  intros Hmk. unfold unpack_init. rewrite Hmk. unfold pack_files_inv. simpl.
  split; [|auto].
  intros j g Hj.
  change (((fun sh => {| sheet_of := sh; run := run0; joined := false |}) <$>
             Sheets (Pack_ u)) !! j = Some g) in Hj.
  rewrite list_lookup_fmap in Hj.
  destruct (Sheets (Pack_ u) !! j) as [sh|]; [|discriminate].
  injection Hj as <-. simpl. split.
  - exists (Textures sh). reflexivity.
  - intros img t _ Hin. inversion Hin.
Qed.
End PackFiles.



(** ** [main]: the default number of workers *)

(** X19: on a machine with at least one CPU (and fewer than 2^62, so that the
    doubling does not wrap) the default of the [--workers] flag lies between
    2 and 32, so a pool started with the default is never without workers;
    up to 16 CPUs it is exactly twice their number, above that it is 32. *)
Theorem main_workers_bounds (numCPU : Z) :
  1 <= numCPU < 4611686018427387904 ->
  2 <= main_workers numCPU <= 32 /\
  (numCPU <= 16 -> main_workers numCPU = 2 * numCPU) /\
  (16 <= numCPU -> main_workers numCPU = 32).
Proof.
  intros Hn. unfold main_workers, imul.
  rewrite wrap_small by (unfold int_range; lia).
  destruct (Z.ltb_spec 32 (2 * numCPU)); lia.
Qed.

Lemma main_workers_bounds_witness :
  2 <= main_workers 4 <= 32 /\
  (4 <= 16 -> main_workers 4 = 2 * 4) /\
  (16 <= 4 -> main_workers 4 = 32).
Proof. apply (main_workers_bounds 4). lia. Defined.
